(** * device.js (version 2.0.0): listener registry and size change detection

    A shallow embedding of [src/device.js]: the closure state of one
    [Device] instance, its listener registration and dispatch methods, the
    size classifier / change detector and the host event bindings.

    Conventions.
    - JavaScript values are the inductive [value]; user functions and
      objects are opaque and identified by a number.
    - Every method is a computation in the monad [M State], which threads
      the instance state and may raise a JavaScript exception.
    - Calling a user callback is an observable effect: it is appended to
      the [trace] of the state together with the actual arguments and the
      content of the closure variable [size] at the time of the call.
      Callbacks are external to the library: they return normally and do
      not call back into the monitor. *)

From Stdlib Require Import List String Ascii ZArith Bool Arith Lia.
Import ListNotations.

Local Open Scope string_scope.
Local Open Scope Z_scope.
Local Open Scope list_scope.

(** ** JavaScript values *)

Module JS.

Inductive value : Type :=
| VUndefined
| VNull
| VBool (b : bool)
| VNum (n : Z)
| VNaN
| VStr (s : string)
| VFun (f : nat)     (* a function object, by identity *)
| VObj (o : nat).    (* any other object, by identity; it has no [apply] *)

(** [typeof v] *)
Definition typeof (v : value) : string :=
  match v with
  | VUndefined => "undefined"
  | VNull => "object"
  | VBool _ => "boolean"
  | VNum _ | VNaN => "number"
  | VStr _ => "string"
  | VFun _ => "function"
  | VObj _ => "object"
  end.

(** ToBoolean *)
Definition to_boolean (v : value) : bool :=
  match v with
  | VUndefined | VNull | VNaN => false
  | VBool b => b
  | VNum n => negb (n =? 0)
  | VStr s => negb (String.eqb s "")
  | VFun _ | VObj _ => true
  end.

Definition digit_of (c : ascii) : option Z :=
  let n := Z.of_nat (nat_of_ascii c) in
  if (48 <=? n) && (n <=? 57) then Some (n - 48) else None.

Fixpoint digits (s : string) (acc : Z) : option Z :=
  match s with
  | EmptyString => Some acc
  | String c r =>
      match digit_of c with
      | Some d => digits r (10 * acc + d)
      | None => None
      end
  end.

(** ToNumber on a string, for the fragment the monitor meets: the empty
    string is 0, a run of decimal digits is its value, a string holding
    any other character (every [typeof] result, every size label) is NaN.
    Signs, fractions, exponents, hexadecimal literals and surrounding
    white space are not used by the program and not modelled. *)
Definition string_to_number (s : string) : value :=
  match digits s 0 with
  | Some n => VNum n
  | None => VNaN
  end.

(** ToNumber on primitives. *)
Definition to_number (v : value) : value :=
  match v with
  | VUndefined => VNaN
  | VNull => VNum 0
  | VBool b => VNum (if b then 1 else 0)
  | VNum n => VNum n
  | VNaN => VNaN
  | VStr s => string_to_number s
  | VFun _ | VObj _ => VNaN
  end.

Definition num_eq (x y : value) : bool :=
  match x, y with
  | VNum a, VNum b => a =? b
  | _, _ => false
  end.

(** [x === y] *)
Definition strict_eq (x y : value) : bool :=
  match x, y with
  | VUndefined, VUndefined => true
  | VNull, VNull => true
  | VBool a, VBool b => Bool.eqb a b
  | VNum a, VNum b => a =? b
  | VStr a, VStr b => String.eqb a b
  | VFun a, VFun b => Nat.eqb a b
  | VObj a, VObj b => Nat.eqb a b
  | _, _ => false
  end.

(** [x == y], the abstract equality comparison.  Operands of one type are
    compared as by [===]; [null] and [undefined] equal each other only;
    a boolean, a number and a string are compared after ToNumber (for
    two booleans or two numbers that agrees with [===]; two strings are
    compared as strings).  The
    primitive value of an opaque object is unknown: an object is equal
    only to itself. *)
Definition loose_eq (x y : value) : bool :=
  match x, y with
  | (VUndefined | VNull), (VUndefined | VNull) => true
  | VStr a, VStr b => String.eqb a b
  | VFun a, VFun b => Nat.eqb a b
  | VObj a, VObj b => Nat.eqb a b
  | (VBool _ | VNum _ | VNaN | VStr _), (VBool _ | VNum _ | VNaN)
  | (VBool _ | VNum _ | VNaN), VStr _ =>
      num_eq (to_number x) (to_number y)
  | _, _ => false
  end.

(** [!v] *)
Definition js_not (v : value) : value := VBool (negb (to_boolean v)).

(** [a || b] *)
Definition js_or (a b : value) : value := if to_boolean a then a else b.

End JS.
Import JS.

(** ** Outcomes and the method monad *)

(** [TypeError]: raised by the language when a value that is not a function
    is called.  [Raised f]: the exception, whatever it is, that the user
    function [f] throws; only the methods of [Fault] below, where a
    listener may fail, produce it. *)
Inductive exn : Type := TypeError | Raised (f : nat).

(** A call either returns a value or raises; in both cases the state it
    has reached is kept, as effects made before a [throw] persist. *)
Inductive outcome (St A : Type) : Type :=
| Normal (a : A) (s : St)
| Throw (e : exn) (s : St).
Arguments Normal {St A} a s.
Arguments Throw {St A} e s.

Definition state_of {St A} (o : outcome St A) : St :=
  match o with
  | Normal _ s => s
  | Throw _ s => s
  end.

Definition M (St A : Type) : Type := St -> outcome St A.

Definition ret {St A} (a : A) : M St A := fun s => Normal a s.

Definition bind {St A B} (m : M St A) (k : A -> M St B) : M St B :=
  fun s =>
    match m s with
    | Normal a s' => k a s'
    | Throw e s' => Throw e s'
    end.

Definition gets {St A} (f : St -> A) : M St A := fun s => Normal (f s) s.

Definition modify {St} (f : St -> St) : M St unit := fun s => Normal tt (f s).

Declare Scope js_scope.
Delimit Scope js_scope with js.
Notation "x <- m ;; k" := (bind m (fun x => k))
  (at level 61, m at next level, right associativity) : js_scope.
Notation "m ;; k" := (bind m (fun _ => k))
  (at level 61, right associativity) : js_scope.
Local Open Scope js_scope.

(** [$.each(obj, callback)] on an array: the callback receives the index
    and the element, for the elements present when the loop starts.  The
    loop would stop at a callback returning [false]; the callbacks of this
    program return nothing. *)
Fixpoint jq_each {St A} (i : nat) (obj : list A)
    (callback : nat -> A -> M St unit) : M St unit :=
  match obj with
  | [] => ret tt
  | x :: rest => callback i x ;; jq_each (S i) rest callback
  end.

(** [$.inArray(elem, arr)]: the first index holding [elem] (by [===]), or -1 *)
Fixpoint inArray_from (i : Z) (elem : value) (arr : list value) : Z :=
  match arr with
  | [] => -1
  | x :: rest => if strict_eq x elem then i else inArray_from (i + 1) elem rest
  end.

Definition inArray (elem : value) (arr : list value) : Z :=
  inArray_from 0 elem arr.

(** ** Data model of one [Device] instance *)

Inductive Kind : Type := SizeChange | OrientationChange.

(** A listener entry, [{func: ..., args: [...]}] *)
Record eventObj : Type := { func : value; args : list value }.

(** Observations: entering one of the two dispatch methods, and a call
    [f.apply(_, actuals)] of a user function made while the closure
    variable [size] held [seen]. *)
Inductive Obs : Type :=
| Dispatch (k : Kind)
| Call (f : nat) (actuals : list value) (seen : value).

Inductive HostEvent : Type := resize | orientationchange.

(** What the instance binds to the window: the anonymous function of
    [initSizeListener], which calls [device.updateSize], and the method
    [runOrientationChangeEvents] itself. *)
Inductive Handler : Type := call_updateSize | call_runOrientationChangeEvents.

(** [options.mq] *)
Record Options : Type := { mq_small : string; mq_medium : string }.

Definition default_options : Options :=
  {| mq_small := "only all and (max-width: 599px)";
     mq_medium := "only all and (min-width: 600px) and (max-width: 960px)" |}.

(** [$.extend({}, {mq: ...}, options)] is a shallow merge: an [mq] given by
    the caller replaces the default one as a whole. *)
Definition extend_options (user : option Options) : Options :=
  match user with
  | Some o => o
  | None => default_options
  end.

(** The host at the time of a call: [Modernizr.mq] and [window.orientation]. *)
Record Env : Type := {
  Modernizr_mq : string -> bool;
  window_orientation : value }.

Record State : Type := {
  size : value;                                  (* [var size] *)
  sizeChangeListeners : list eventObj;           (* [var sizeChangeListeners] *)
  orientationChangeListeners : list eventObj;    (* [var orientationChangeListeners] *)
  device_size : value;                           (* the property [device.size] *)
  window_handlers : list (HostEvent * Handler);  (* bound by [init], in order *)
  trace : list Obs }.

(** The state the constructor starts from: [size = null], both arrays
    empty, and a [device] object literal that declares no [size] property,
    so that [device.size] is [undefined]. *)
Definition initial_state : State :=
  {| size := VNull;
     sizeChangeListeners := [];
     orientationChangeListeners := [];
     device_size := VUndefined;
     window_handlers := [];
     trace := [] |}.

Definition set_size (v : value) (st : State) : State :=
  {| size := v;
     sizeChangeListeners := sizeChangeListeners st;
     orientationChangeListeners := orientationChangeListeners st;
     device_size := device_size st;
     window_handlers := window_handlers st;
     trace := trace st |}.

Definition log (o : Obs) (st : State) : State :=
  {| size := size st;
     sizeChangeListeners := sizeChangeListeners st;
     orientationChangeListeners := orientationChangeListeners st;
     device_size := device_size st;
     window_handlers := window_handlers st;
     trace := trace st ++ [o] |}.

Definition listeners (k : Kind) (st : State) : list eventObj :=
  match k with
  | SizeChange => sizeChangeListeners st
  | OrientationChange => orientationChangeListeners st
  end.

(** [sizeChangeListeners.push(event)] / [orientationChangeListeners.push(event)] *)
Definition push (k : Kind) (event : eventObj) (st : State) : State :=
  match k with
  | SizeChange =>
      {| size := size st;
         sizeChangeListeners := sizeChangeListeners st ++ [event];
         orientationChangeListeners := orientationChangeListeners st;
         device_size := device_size st;
         window_handlers := window_handlers st;
         trace := trace st |}
  | OrientationChange =>
      {| size := size st;
         sizeChangeListeners := sizeChangeListeners st;
         orientationChangeListeners := orientationChangeListeners st ++ [event];
         device_size := device_size st;
         window_handlers := window_handlers st;
         trace := trace st |}
  end.

(** [$(window).on(ev, h)] *)
Definition on (ev : HostEvent) (h : Handler) (st : State) : State :=
  {| size := size st;
     sizeChangeListeners := sizeChangeListeners st;
     orientationChangeListeners := orientationChangeListeners st;
     device_size := device_size st;
     window_handlers := window_handlers st ++ [(ev, h)];
     trace := trace st |}.

(** [f.apply(_, actuals)]: only a function object has [apply]; on any other
    value the property access or the call raises a TypeError. *)
Definition apply (f : value) (actuals : list value) : M State unit :=
  fun st =>
    match f with
    | VFun id => Normal tt (log (Call id actuals (size st)) st)
    | _ => Throw TypeError st
    end.

(** The loop that fills [event.args]:
    [$.each(slice(arguments), function (i, arg) { if (i < 2) return; event.args.push(arg); })] *)
Definition event_args (arguments : list value) : list value :=
  state_of
    (jq_each 0%nat arguments
       (fun i arg => if (i <? 2)%nat then ret tt else modify (fun a => a ++ [arg]))
       []).

(** ** Methods *)

Section Monitor.

Variable options : Options.

(** [addSizeChangeEvent] and [addOrientationChangeEvent] have the same body
    up to the array they push to; [k] selects the array.
    The guard [!typeof func == 'function'] is [(!(typeof func)) == 'function']. *)
Definition addChangeEvent (k : Kind) (arguments : list value) : M State unit :=
  let func_ := nth 0 arguments VUndefined in
  let autoCall := nth 1 arguments VUndefined in
  if loose_eq (js_not (VStr (typeof func_))) (VStr "function") then ret tt
  else
    let autoCall := js_or autoCall (VBool false) in
    let event := {| func := func_; args := event_args arguments |} in
    (if strict_eq autoCall (VBool true)
     then apply (func event) (args event)
     else ret tt) ;;
    modify (push k event).

Definition addSizeChangeEvent : list value -> M State unit :=
  addChangeEvent SizeChange.

Definition addOrientationChangeEvent : list value -> M State unit :=
  addChangeEvent OrientationChange.

(** [runSizeChangeEvents] and [runOrientationChangeEvents], likewise. *)
Definition runChangeEvents (k : Kind) : M State unit :=
  modify (log (Dispatch k)) ;;   (* the entry into the method, observed *)
  fun st =>
    jq_each 0%nat (listeners k st)
      (fun _ eventObj =>
         if loose_eq (VStr (typeof (func eventObj))) (VStr "function")
         then apply (func eventObj) (args eventObj)
         else ret tt)
      st.

Definition runSizeChangeEvents : M State unit := runChangeEvents SizeChange.

Definition runOrientationChangeEvents : M State unit :=
  runChangeEvents OrientationChange.

(** The [switch (true)] of [updateSize]: the cases are tried in order, each
    by [true === Modernizr.mq(...)]. *)
Definition newSize (env : Env) : string :=
  if strict_eq (VBool true) (VBool (Modernizr_mq env (mq_small options)))
  then "small"
  else if strict_eq (VBool true) (VBool (Modernizr_mq env (mq_medium options)))
  then "medium"
  else "large".

Definition updateSize (env : Env) : M State unit :=
  old <- gets size ;;
  let fire := negb (loose_eq (VStr (newSize env)) old) in
  modify (set_size (VStr (newSize env))) ;;
  if fire then runSizeChangeEvents else ret tt.

(** [getSize] tests the property [this.size] and returns the variable [size]. *)
Definition getSize (env : Env) : M State value :=
  this_size <- gets device_size ;;
  (if strict_eq VNull this_size then updateSize env else ret tt) ;;
  gets size.

Definition getOrientation (env : Env) : value :=
  if strict_eq (window_orientation env) (VNum 0)
  then VStr "portrait"
  else VStr "landscape".

Definition sizeIs (env : Env) (arguments : list value) : M State value :=
  s <- getSize env ;;
  ret (VBool (negb (inArray s arguments =? -1))).

Definition initSizeListener : M State unit :=
  modify (on resize call_updateSize).

Definition initOrientationListener : M State unit :=
  modify (on orientationchange call_runOrientationChangeEvents).

Definition init (env : Env) : M State unit :=
  updateSize env ;; initSizeListener ;; initOrientationListener.

(** ** The host firing an event on the window *)

Definition HostEvent_eqb (a b : HostEvent) : bool :=
  match a, b with
  | resize, resize | orientationchange, orientationchange => true
  | _, _ => false
  end.

Definition run_handler (env : Env) (h : Handler) : M State unit :=
  match h with
  | call_updateSize => updateSize env
  | call_runOrientationChangeEvents => runOrientationChangeEvents
  end.

Definition trigger (env : Env) (ev : HostEvent) : M State unit :=
  fun st =>
    jq_each 0%nat (window_handlers st)
      (fun _ b => if HostEvent_eqb (fst b) ev then run_handler env (snd b) else ret tt)
      st.

(** ** Operations a client or the host can perform on a built instance *)

Inductive Op : Type :=
| op_addSizeChangeEvent (arguments : list value)
| op_addOrientationChangeEvent (arguments : list value)
| op_runSizeChangeEvents
| op_runOrientationChangeEvents
| op_getSize
| op_sizeIs (arguments : list value)
| op_updateSize
| op_trigger (ev : HostEvent).

Definition step (env : Env) (o : Op) : M State unit :=
  match o with
  | op_addSizeChangeEvent a => addSizeChangeEvent a
  | op_addOrientationChangeEvent a => addOrientationChangeEvent a
  | op_runSizeChangeEvents => runSizeChangeEvents
  | op_runOrientationChangeEvents => runOrientationChangeEvents
  | op_getSize => getSize env ;; ret tt
  | op_sizeIs a => sizeIs env a ;; ret tt
  | op_updateSize => updateSize env
  | op_trigger ev => trigger env ev
  end.

End Monitor.

(** [new Device(options)]: merge the options, then [device.init()]. *)
Definition Device (user : option Options) (env : Env) : outcome State unit :=
  init (extend_options user) env initial_state.

(** ** Vocabulary for the statements *)

Definition value_eq_dec (x y : value) : {x = y} + {x <> y}.
Proof.
  decide equality;
    auto using Z.eq_dec, string_dec, Bool.bool_dec, Nat.eq_dec.
Defined.

(** Append a run of observations to the trace. *)
Definition log_all (obs : list Obs) (st : State) : State :=
  {| size := size st;
     sizeChangeListeners := sizeChangeListeners st;
     orientationChangeListeners := orientationChangeListeners st;
     device_size := device_size st;
     window_handlers := window_handlers st;
     trace := trace st ++ obs |}.

(** The calls one dispatch makes over the entries [l] while [size] holds
    [seen]: one per entry whose [func] is a function, in the order of [l]. *)
Definition call_of (seen : value) (e : eventObj) : list Obs :=
  match func e with
  | VFun f => [Call f (args e) seen]
  | _ => []
  end.

Definition dispatch_calls (seen : value) (l : list eventObj) : list Obs :=
  flat_map (call_of seen) l.

(** One whole dispatch of the list of kind [k], as observed. *)
Definition dispatch_obs (k : Kind) (st : State) : list Obs :=
  Dispatch k :: dispatch_calls (size st) (listeners k st).

Definition Kind_eqb (a b : Kind) : bool :=
  match a, b with
  | SizeChange, SizeChange | OrientationChange, OrientationChange => true
  | _, _ => false
  end.

Definition is_dispatch (k : Kind) (o : Obs) : bool :=
  match o with
  | Dispatch k' => Kind_eqb k k'
  | Call _ _ _ => false
  end.

(** How many times the dispatch method of kind [k] was entered. *)
Definition dispatches (k : Kind) (t : list Obs) : nat :=
  List.length (filter (is_dispatch k) t).

(** How many labels of a sequence differ from their predecessor, [prev]
    being the predecessor of the first. *)
Fixpoint transitions (prev : value) (labels : list string) : nat :=
  match labels with
  | [] => 0%nat
  | l :: rest =>
      ((if value_eq_dec prev (VStr l) then 0 else 1) + transitions (VStr l) rest)%nat
  end.

(** [updateSize()] once per host state of [envs]. *)
Fixpoint updateSize_seq (options : Options) (envs : list Env) : M State unit :=
  match envs with
  | [] => ret tt
  | env :: rest => updateSize options env ;; updateSize_seq options rest
  end.

(** A registration request for a function: its identity, the [autoCall]
    argument and the arguments that follow. *)
Record registration : Type :=
  { reg_func : nat; reg_autoCall : value; reg_args : list value }.

Definition reg_arguments (r : registration) : list value :=
  VFun (reg_func r) :: reg_autoCall r :: reg_args r.

Definition reg_entry (r : registration) : eventObj :=
  {| func := VFun (reg_func r); args := reg_args r |}.

Definition reg_call (seen : value) (r : registration) : Obs :=
  Call (reg_func r) (reg_args r) seen.

Fixpoint register_all (k : Kind) (regs : list registration) : M State unit :=
  match regs with
  | [] => ret tt
  | r :: rest => addChangeEvent k (reg_arguments r) ;; register_all k rest
  end.

(** A client program: operations, each under the host state of its time.
    An exception ends the operation that raised it, not the program. *)
Fixpoint exec (options : Options) (prog : list (Env * Op)) (st : State) : State :=
  match prog with
  | [] => st
  | (env, o) :: rest => exec options rest (state_of (step options env o st))
  end.

(** The states of a built instance: the one the constructor returns, and
    those reached from it by client operations and host events. *)
Inductive reachable (options : Options) : State -> Prop :=
| reachable_built (env : Env) :
    reachable options (state_of (init options env initial_state))
| reachable_step (env : Env) (o : Op) (st : State) :
    reachable options st ->
    reachable options (state_of (step options env o st)).

(** A label is one of the three strings [updateSize] assigns. *)
Definition is_label (v : value) : Prop :=
  v = VStr "small" \/ v = VStr "medium" \/ v = VStr "large".

(** Is the value a function object, that is, is [typeof v] "function"? *)
Definition callable (v : value) : bool :=
  match v with
  | VFun _ => true
  | _ => false
  end.

(** Is the value the boolean [true]? *)
Definition is_true (v : value) : bool :=
  match v with
  | VBool true => true
  | _ => false
  end.

(** The host used in the examples: the two default media queries answer
    [s] and [m]; [window.orientation] is [angle]. *)
Definition host (s m : bool) (angle : Z) : Env :=
  {| Modernizr_mq := fun q =>
       if String.eqb q (mq_small default_options) then s
       else if String.eqb q (mq_medium default_options) then m
       else false;
     window_orientation := VNum angle |}.

(** The observation, if it is a call, was made while [size] held [v]. *)
Definition seen_is (v : value) (o : Obs) : Prop :=
  match o with
  | Call _ _ seen => seen = v
  | Dispatch _ => True
  end.

(** A property of states is stable when the elementary updates made after
    construction keep it: appending a listener entry, logging an
    observation, assigning a computed label to [size]. *)
Definition stable (options : Options) (P : State -> Prop) : Prop :=
  (forall k e st, P st -> P (push k e st))
  /\ (forall o st, P st -> P (log o st))
  /\ (forall env st, P st -> P (set_size (VStr (newSize options env)) st)).

(** A computation keeps a property of states, however it ends. *)
Definition preserves {A} (P : State -> Prop) (m : M State A) : Prop :=
  forall st, P st -> P (state_of (m st)).

(** The invariant of a built instance. *)
Definition built_inv (st : State) : Prop :=
  is_label (size st)
  /\ device_size st = VUndefined
  /\ window_handlers st
     = [(resize, call_updateSize);
        (orientationchange, call_runOrientationChangeEvents)].

(** The listener list of kind [k] starts with the entries [l], in order. *)
Definition extends (k : Kind) (l : list eventObj) (st : State) : Prop :=
  exists added : list eventObj, listeners k st = l ++ added.

(** ** Passive accessors *)

(** [getScrollTop]: [document.documentElement.scrollTop || document.body.scrollTop],
    given the two offsets the document reports. *)
Definition getScrollTop (documentElement_scrollTop body_scrollTop : value) : value :=
  js_or documentElement_scrollTop body_scrollTop.

(** [getScrollLeft]: [document.documentElement.scrollLeft || document.body.scrollLeft] *)
Definition getScrollLeft (documentElement_scrollLeft body_scrollLeft : value) : value :=
  js_or documentElement_scrollLeft body_scrollLeft.

(** ** Further vocabulary *)

(** [n] consecutive dispatches of the list of kind [k]. *)
Fixpoint runChangeEvents_times (k : Kind) (n : nat) : M State unit :=
  match n with
  | O => ret tt
  | S n' => runChangeEvents k ;; runChangeEvents_times k n'
  end.

Fixpoint repeat_obs (n : nat) (l : list Obs) : list Obs :=
  match n with
  | O => []
  | S n' => l ++ repeat_obs n' l
  end.

Definition is_call_to (f : nat) (o : Obs) : bool :=
  match o with
  | Call g _ _ => Nat.eqb f g
  | Dispatch _ => false
  end.

(** How many calls of the function [f] were observed. *)
Definition calls_to (f : nat) (t : list Obs) : nat :=
  List.length (filter (is_call_to f) t).

Definition is_entry_of (f : nat) (e : eventObj) : bool :=
  match func e with
  | VFun g => Nat.eqb f g
  | _ => false
  end.

(** How many entries of a listener list hold the function [f]. *)
Definition entries_of (f : nat) (l : list eventObj) : nat :=
  List.length (filter (is_entry_of f) l).

(** ** Version 1.0.0 of the library

    The earlier [device.js] is one global object: the size is its property
    [device.size], the listener arrays are [device.onSizeChange] and
    [device.onOrientationChange], the media queries are fixed, and the
    registration methods take the bound arguments right after the
    function.  Methods are called on the object ([this] is [device]). *)
Module V1.

Record State : Type := {
  size : value;                             (* [device.size] *)
  onSizeChange : list eventObj;             (* [device.onSizeChange] *)
  onOrientationChange : list eventObj;      (* [device.onOrientationChange] *)
  trace : list Obs }.

Definition initial_state : State :=
  {| size := VNull; onSizeChange := []; onOrientationChange := []; trace := [] |}.

Definition set_size (v : value) (st : State) : State :=
  {| size := v;
     onSizeChange := onSizeChange st;
     onOrientationChange := onOrientationChange st;
     trace := trace st |}.

Definition log (o : Obs) (st : State) : State :=
  {| size := size st;
     onSizeChange := onSizeChange st;
     onOrientationChange := onOrientationChange st;
     trace := trace st ++ [o] |}.

Definition log_all (obs : list Obs) (st : State) : State :=
  {| size := size st;
     onSizeChange := onSizeChange st;
     onOrientationChange := onOrientationChange st;
     trace := trace st ++ obs |}.

Definition listeners (k : Kind) (st : State) : list eventObj :=
  match k with
  | SizeChange => onSizeChange st
  | OrientationChange => onOrientationChange st
  end.

Definition push (k : Kind) (event : eventObj) (st : State) : State :=
  match k with
  | SizeChange =>
      {| size := size st;
         onSizeChange := onSizeChange st ++ [event];
         onOrientationChange := onOrientationChange st;
         trace := trace st |}
  | OrientationChange =>
      {| size := size st;
         onSizeChange := onSizeChange st;
         onOrientationChange := onOrientationChange st ++ [event];
         trace := trace st |}
  end.

Definition apply (f : value) (actuals : list value) : M State unit :=
  fun st =>
    match f with
    | VFun id => Normal tt (log (Call id actuals (size st)) st)
    | _ => Throw TypeError st
    end.

(** [$.each(slice(arguments), function (i, arg) { if (i === 0) return; event.args.push(arg); })] *)
Definition event_args (arguments : list value) : list value :=
  state_of
    (jq_each 0%nat arguments
       (fun i arg =>
          if strict_eq (VNum (Z.of_nat i)) (VNum 0)
          then ret tt
          else modify (fun a => a ++ [arg]))
       []).

(** [addSizeChangeEvent] / [addOrientationChangeEvent] *)
Definition addChangeEvent (k : Kind) (arguments : list value) : M State unit :=
  let func_ := nth 0 arguments VUndefined in
  if loose_eq (js_not (VStr (typeof func_))) (VStr "function") then ret tt
  else
    let event := {| func := func_; args := event_args arguments |} in
    modify (push k event).

Definition addSizeChangeEvent : list value -> M State unit :=
  addChangeEvent SizeChange.

Definition addOrientationChangeEvent : list value -> M State unit :=
  addChangeEvent OrientationChange.

(** [runSizeChangeEvents] / [runOrientationChangeEvents] *)
Definition runChangeEvents (k : Kind) : M State unit :=
  modify (log (Dispatch k)) ;;   (* the entry into the method, observed *)
  fun st =>
    jq_each 0%nat (listeners k st)
      (fun _ eventObj =>
         if loose_eq (VStr (typeof (func eventObj))) (VStr "function")
         then apply (func eventObj) (args eventObj)
         else ret tt)
      st.

Definition runSizeChangeEvents : M State unit := runChangeEvents SizeChange.

Definition runOrientationChangeEvents : M State unit :=
  runChangeEvents OrientationChange.

Definition newSize (env : Env) : string :=
  if strict_eq (VBool true)
       (VBool (Modernizr_mq env "only all and (max-width: 599px)"))
  then "small"
  else if strict_eq (VBool true)
            (VBool (Modernizr_mq env
                      "only all and (min-width: 600px) and (max-width: 960px)"))
  then "medium"
  else "large".

Definition updateSize (env : Env) : M State unit :=
  old <- gets size ;;
  let fire := negb (loose_eq (VStr (newSize env)) old) in
  modify (set_size (VStr (newSize env))) ;;
  if fire then runSizeChangeEvents else ret tt.

(** [getSize]: [if (null === this.size) { this.updateSize(); } return this.size;] *)
Definition getSize (env : Env) : M State value :=
  this_size <- gets size ;;
  (if strict_eq VNull this_size then updateSize env else ret tt) ;;
  gets size.

End V1.

(** ** Listeners that fail

    In the methods above a user function always returns.  Here the outcome
    of a call is given by [raises]: the function [f], called with
    [actuals] while [size] holds [seen], throws when
    [raises f actuals seen] is true.  The call is observed in both cases.
    The three methods that call user functions are restated over this
    [apply]; their text is otherwise the one above. *)
Module Fault.

Section Listeners.

Variable raises : nat -> list value -> value -> bool.

Definition apply (f : value) (actuals : list value) : M State unit :=
  fun st =>
    match f with
    | VFun id =>
        if raises id actuals (size st)
        then Throw (Raised id) (log (Call id actuals (size st)) st)
        else Normal tt (log (Call id actuals (size st)) st)
    | _ => Throw TypeError st
    end.

Definition addChangeEvent (k : Kind) (arguments : list value) : M State unit :=
  let func_ := nth 0 arguments VUndefined in
  let autoCall := nth 1 arguments VUndefined in
  if loose_eq (js_not (VStr (typeof func_))) (VStr "function") then ret tt
  else
    let autoCall := js_or autoCall (VBool false) in
    let event := {| func := func_; args := event_args arguments |} in
    (if strict_eq autoCall (VBool true)
     then apply (func event) (args event)
     else ret tt) ;;
    modify (push k event).

Definition runChangeEvents (k : Kind) : M State unit :=
  modify (log (Dispatch k)) ;;   (* the entry into the method, observed *)
  fun st =>
    jq_each 0%nat (listeners k st)
      (fun _ eventObj =>
         if loose_eq (VStr (typeof (func eventObj))) (VStr "function")
         then apply (func eventObj) (args eventObj)
         else ret tt)
      st.

Definition updateSize (options : Options) (env : Env) : M State unit :=
  old <- gets size ;;
  let fire := negb (loose_eq (VStr (newSize options env)) old) in
  modify (set_size (VStr (newSize options env))) ;;
  if fire then runChangeEvents SizeChange else ret tt.

End Listeners.

End Fault.

(** Does the call of the entry [e], made while [size] holds [seen], throw? *)
Definition raises_entry (raises : nat -> list value -> value -> bool)
    (seen : value) (e : eventObj) : bool :=
  match func e with
  | VFun g => raises g (args e) seen
  | _ => false
  end.

(** ** Every method of the returned object

    Besides the operations of [Op], the object exposes [init],
    [initSizeListener] and [initOrientationListener]; a client that calls
    one of them binds a window handler again. *)
Inductive Method : Type :=
| m_op (o : Op)
| m_init
| m_initSizeListener
| m_initOrientationListener.

Definition call (options : Options) (env : Env) (m : Method) : M State unit :=
  match m with
  | m_op o => step options env o
  | m_init => init options env
  | m_initSizeListener => initSizeListener
  | m_initOrientationListener => initOrientationListener
  end.

(** The states reached from construction by calls of any method and by
    host events. *)
Inductive reachable_all (options : Options) : State -> Prop :=
| reachable_all_built (env : Env) :
    reachable_all options (state_of (init options env initial_state))
| reachable_all_call (env : Env) (m : Method) (st : State) :
    reachable_all options st ->
    reachable_all options (state_of (call options env m st)).

(** The invariant of those states: a label in [size], and the two bindings
    made by the constructor still first on the window. *)
Definition bound_inv (st : State) : Prop :=
  is_label (size st)
  /\ exists more : list (HostEvent * Handler),
       window_handlers st
       = [(resize, call_updateSize);
          (orientationchange, call_runOrientationChangeEvents)] ++ more.

(** The values that are not objects. *)
Definition primitive (v : value) : bool :=
  match v with
  | VFun _ | VObj _ => false
  | _ => true
  end.

(** ** Equations of the JavaScript operators used by the monitor *)

Lemma guard_never_fires (v : value) :
  loose_eq (js_not (VStr (typeof v))) (VStr "function") = false.
Proof. destruct v; reflexivity. Qed.

Lemma typeof_function (v : value) :
  loose_eq (VStr (typeof v)) (VStr "function") = callable v.
Proof. destruct v; reflexivity. Qed.

Lemma autoCall_test (a : value) :
  strict_eq (js_or a (VBool false)) (VBool true) = is_true a.
Proof.
  destruct a as [ | | [|] | n | | s | f | o]; try reflexivity.
  - unfold js_or; simpl. destruct (n =? 0); reflexivity.
  - unfold js_or; simpl. destruct (String.eqb s ""); reflexivity.
Qed.

Lemma is_true_iff (a : value) : is_true a = true <-> a = VBool true.
Proof.
  split.
  - destruct a as [ | | [|] | | | | | ]; simpl; congruence.
  - intros ->. reflexivity.
Qed.

Lemma is_true_false (a : value) : a <> VBool true -> is_true a = false.
Proof.
  intros H. destruct (is_true a) eqn:E; [|reflexivity].
  apply is_true_iff in E. contradiction.
Qed.

Lemma strict_eq_VStr (v : value) (s : string) :
  strict_eq v (VStr s) = true <-> v = VStr s.
Proof.
  destruct v; simpl; try (split; congruence).
  rewrite String.eqb_eq. split; congruence.
Qed.

Lemma strict_eq_sym (x y : value) : strict_eq x y = strict_eq y x.
Proof.
  destruct x, y; simpl; try reflexivity.
  - destruct b, b0; reflexivity.
  - apply Z.eqb_sym.
  - apply String.eqb_sym.
  - apply Nat.eqb_sym.
  - apply Nat.eqb_sym.
Qed.

Lemma loose_eq_label (s : string) (v : value) :
  is_label (VStr s) -> (loose_eq (VStr s) v = true <-> v = VStr s).
Proof.
  intros [H | [H | H]]; injection H as ->;
    (destruct v as [ | | [|] | n | | t | f | o];
     try (split; [cbv; discriminate | discriminate]);
     unfold loose_eq; rewrite String.eqb_eq; split; congruence).
Qed.

(** ** Equations of the loops *)

Lemma event_args_loop (l : list value) :
  forall (i : nat) (acc : list value), (2 <= i)%nat ->
    jq_each i l
      (fun i arg => if (i <? 2)%nat then ret tt else modify (fun a => a ++ [arg]))
      acc
    = Normal tt (acc ++ l).
Proof.
  induction l as [|x l IH]; intros i acc Hi; simpl.
  - rewrite app_nil_r. reflexivity.
  - unfold bind. destruct (Nat.ltb_spec i 2) as [Hlt | _]; [lia|].
    unfold modify. rewrite IH by lia. rewrite <- app_assoc. reflexivity.
Qed.

Lemma event_args_skipn (arguments : list value) :
  event_args arguments = skipn 2 arguments.
Proof.
  unfold event_args.
  destruct arguments as [|a0 [|a1 rest]]; try reflexivity.
  simpl. unfold bind, ret. rewrite event_args_loop by lia. reflexivity.
Qed.

Lemma log_all_nil (st : State) : log_all [] st = st.
Proof. destruct st; unfold log_all; simpl. rewrite app_nil_r. reflexivity. Qed.

Lemma log_all_app (l1 l2 : list Obs) (st : State) :
  log_all l2 (log_all l1 st) = log_all (l1 ++ l2) st.
Proof. unfold log_all; simpl. rewrite app_assoc. reflexivity. Qed.

Lemma log_is_log_all (o : Obs) (st : State) : log o st = log_all [o] st.
Proof. reflexivity. Qed.

Lemma dispatch_loop (l : list eventObj) :
  forall (i : nat) (st : State),
    jq_each i l
      (fun _ eventObj =>
         if loose_eq (VStr (typeof (func eventObj))) (VStr "function")
         then apply (func eventObj) (args eventObj)
         else ret tt)
      st
    = Normal tt (log_all (dispatch_calls (size st) l) st).
Proof.
  induction l as [|e l IH]; intros i st;
    cbn [jq_each dispatch_calls flat_map].
  - rewrite log_all_nil. reflexivity.
  - unfold bind. rewrite typeof_function.
    unfold call_of, apply. destruct (func e); cbn [callable]; unfold ret;
      rewrite IH; try reflexivity.
    rewrite log_is_log_all, log_all_app. reflexivity.
Qed.

Lemma runChangeEvents_eq (k : Kind) (st : State) :
  runChangeEvents k st = Normal tt (log_all (dispatch_obs k st) st).
Proof.
  unfold runChangeEvents, bind, modify.
  rewrite dispatch_loop, log_is_log_all, log_all_app. reflexivity.
Qed.

Lemma addChangeEvent_eq (k : Kind) (arguments : list value) (st : State) :
  addChangeEvent k arguments st =
  let e := {| func := nth 0 arguments VUndefined; args := skipn 2 arguments |} in
  if is_true (nth 1 arguments VUndefined)
  then match func e with
       | VFun f => Normal tt (push k e (log (Call f (args e) (size st)) st))
       | _ => Throw TypeError st
       end
  else Normal tt (push k e st).
Proof.
  unfold addChangeEvent.
  rewrite guard_never_fires, autoCall_test, event_args_skipn. simpl.
  destruct (is_true (nth 1 arguments VUndefined)).
  - unfold bind, apply. destruct (nth 0 arguments VUndefined); reflexivity.
  - reflexivity.
Qed.

Lemma newSize_is_label (options : Options) (env : Env) :
  is_label (VStr (newSize options env)).
Proof.
  unfold newSize, is_label; simpl.
  destruct (Modernizr_mq env (mq_small options)); simpl; auto.
  destruct (Modernizr_mq env (mq_medium options)); simpl; auto.
Qed.

Lemma updateSize_eq (options : Options) (env : Env) (st : State) :
  updateSize options env st =
  Normal tt
    (let st1 := set_size (VStr (newSize options env)) st in
     if value_eq_dec (size st) (VStr (newSize options env))
     then st1
     else log_all (dispatch_obs SizeChange st1) st1).
Proof.
  unfold updateSize, bind, gets, modify. cbv beta iota zeta.
  pose proof (loose_eq_label (newSize options env) (size st)
                (newSize_is_label options env)) as L.
  destruct (value_eq_dec (size st) (VStr (newSize options env))) as [E | N].
  - apply L in E. rewrite E. reflexivity.
  - destruct (loose_eq (VStr (newSize options env)) (size st)) eqn:E.
    + exfalso. apply N, L. reflexivity.
    + cbn [negb]. unfold runSizeChangeEvents. apply runChangeEvents_eq.
Qed.

(** ** Projections of the state updates *)

Lemma size_push (k : Kind) (e : eventObj) (st : State) :
  size (push k e st) = size st.
Proof. destruct k; reflexivity. Qed.

Lemma listeners_push (k : Kind) (e : eventObj) (st : State) :
  listeners k (push k e st) = listeners k st ++ [e].
Proof. destruct k; reflexivity. Qed.

Lemma dispatch_calls_app (seen : value) (l1 l2 : list eventObj) :
  dispatch_calls seen (l1 ++ l2) = dispatch_calls seen l1 ++ dispatch_calls seen l2.
Proof. unfold dispatch_calls. apply flat_map_app. Qed.

(** A value that is not a function is registered like any other when
    [autoCall] is not [true], and skipped by every dispatch. *)
Lemma non_callable_registration (k : Kind) (v : value) (st : State) :
  callable v = false ->
  addChangeEvent k [v; VBool false] st
    = Normal tt (push k {| func := v; args := [] |} st)
  /\ dispatch_calls (size st) [{| func := v; args := [] |}] = [].
Proof.
  intros H. rewrite addChangeEvent_eq. split; [reflexivity|].
  unfold dispatch_calls, call_of; simpl. destruct v; try reflexivity; discriminate.
Qed.

(** ** Registration *)

(** C1 (does not hold on the code).  The guard of [addSizeChangeEvent]
    and [addOrientationChangeEvent] never rejects: registering the
    number 42 with [autoCall = false] returns normally and appends the
    entry [{func: 42, args: []}] to the listener array, while the claim
    says that nothing is enqueued.  The entry is skipped by the dispatch,
    which observes no call. *)
Theorem addChangeEvent_non_callable_is_enqueued :
  forall st : State,
    addSizeChangeEvent [VNum 42; VBool false] st
      = Normal tt (push SizeChange {| func := VNum 42; args := [] |} st)
    /\ sizeChangeListeners (push SizeChange {| func := VNum 42; args := [] |} st)
      = sizeChangeListeners st ++ [{| func := VNum 42; args := [] |}]
    /\ addOrientationChangeEvent [VNum 42; VBool false] st
      = Normal tt (push OrientationChange {| func := VNum 42; args := [] |} st)
    /\ orientationChangeListeners
         (push OrientationChange {| func := VNum 42; args := [] |} st)
      = orientationChangeListeners st ++ [{| func := VNum 42; args := [] |}]
    /\ runSizeChangeEvents (push SizeChange {| func := VNum 42; args := [] |} initial_state)
      = Normal tt
          (log (Dispatch SizeChange)
             (push SizeChange {| func := VNum 42; args := [] |} initial_state)).
Proof.
  intros st. unfold addSizeChangeEvent, addOrientationChangeEvent.
  rewrite !addChangeEvent_eq. repeat split; reflexivity.
Qed.

(** C5.  For a function [f] and any arguments [actuals],
    [addSizeChangeEvent(f, true, actuals...)] returns normally after
    exactly one call [f(actuals...)], made at registration; the entry it
    appends binds exactly [actuals]; and the next dispatch of the size
    listeners calls the older entries and then [f(actuals...)] again. *)
Theorem addSizeChangeEvent_autoCall_true :
  forall (f : nat) (actuals : list value) (st : State),
  exists st1 st2 : State,
    addSizeChangeEvent (VFun f :: VBool true :: actuals) st = Normal tt st1
    /\ trace st1 = trace st ++ [Call f actuals (size st)]
    /\ sizeChangeListeners st1
       = sizeChangeListeners st ++ [{| func := VFun f; args := actuals |}]
    /\ runSizeChangeEvents st1 = Normal tt st2
    /\ trace st2
       = trace st1
         ++ Dispatch SizeChange
            :: dispatch_calls (size st) (sizeChangeListeners st)
         ++ [Call f actuals (size st)].
Proof.
  intros f actuals st.
  unfold addSizeChangeEvent, runSizeChangeEvents.
  rewrite addChangeEvent_eq. cbv zeta. cbn [nth skipn is_true func args].
  eexists. eexists. split; [reflexivity|].
  split; [reflexivity|]. split; [reflexivity|].
  rewrite runChangeEvents_eq. split; [reflexivity|].
  unfold dispatch_obs, log_all. cbn [trace listeners push log size sizeChangeListeners].
  rewrite dispatch_calls_app. reflexivity.
Qed.

(** C9.  When the [autoCall] argument is anything but the boolean [true]
    (absent, [false], a number such as 1, a string, an object), both
    registration methods return normally without calling anything, and
    append the entry made of the first argument and of the arguments after
    the second, which the next dispatch therefore reaches. *)
Theorem autoCall_only_on_boolean_true :
  forall (arguments : list value) (st : State),
    nth 1 arguments VUndefined <> VBool true ->
    exists e : eventObj,
      e = {| func := nth 0 arguments VUndefined; args := skipn 2 arguments |}
      /\ addSizeChangeEvent arguments st = Normal tt (push SizeChange e st)
      /\ addOrientationChangeEvent arguments st
         = Normal tt (push OrientationChange e st)
      /\ trace (push SizeChange e st) = trace st
      /\ trace (push OrientationChange e st) = trace st
      /\ sizeChangeListeners (push SizeChange e st)
         = sizeChangeListeners st ++ [e]
      /\ orientationChangeListeners (push OrientationChange e st)
         = orientationChangeListeners st ++ [e].
Proof.
  intros arguments st H.
  eexists. split; [reflexivity|].
  unfold addSizeChangeEvent, addOrientationChangeEvent.
  rewrite !addChangeEvent_eq, (is_true_false _ H).
  repeat split; reflexivity.
Qed.

Lemma autoCall_only_on_boolean_true_witness :
  addSizeChangeEvent [VFun 7; VNum 1; VStr "a"] initial_state
  = Normal tt (push SizeChange {| func := VFun 7; args := [VStr "a"] |} initial_state)
  /\ addOrientationChangeEvent [VFun 7; VStr "yes"] initial_state
  = Normal tt (push OrientationChange {| func := VFun 7; args := [] |} initial_state).
Proof.
  split.
  - destruct (autoCall_only_on_boolean_true
                [VFun 7; VNum 1; VStr "a"] initial_state) as [e [He [H _]]].
    + simpl; discriminate.
    + rewrite H, He. reflexivity.
  - destruct (autoCall_only_on_boolean_true
                [VFun 7; VStr "yes"] initial_state) as [e [He [_ [H _]]]].
    + simpl; discriminate.
    + rewrite H, He. reflexivity.
Defined.

(** ** Classification and change detection *)

Lemma dispatches_app (k : Kind) (a b : list Obs) :
  dispatches k (a ++ b) = (dispatches k a + dispatches k b)%nat.
Proof. unfold dispatches. rewrite filter_app, length_app. reflexivity. Qed.

Lemma dispatches_calls (k : Kind) (seen : value) (l : list eventObj) :
  dispatches k (dispatch_calls seen l) = 0%nat.
Proof.
  induction l as [|e l IH]; [reflexivity|].
  unfold dispatch_calls in *. cbn [flat_map]. rewrite dispatches_app, IH.
  unfold call_of. destruct (func e); reflexivity.
Qed.

Lemma dispatches_dispatch_obs (k : Kind) (st : State) :
  dispatches k (dispatch_obs k st) = 1%nat.
Proof.
  unfold dispatch_obs.
  change (Dispatch k :: dispatch_calls (size st) (listeners k st))
    with ([Dispatch k] ++ dispatch_calls (size st) (listeners k st)).
  rewrite dispatches_app, dispatches_calls. destruct k; reflexivity.
Qed.

Lemma updateSize_trace (options : Options) (env : Env) (st : State) :
  trace (state_of (updateSize options env st)) =
  trace st ++
    (if value_eq_dec (size st) (VStr (newSize options env))
     then []
     else Dispatch SizeChange
          :: dispatch_calls (VStr (newSize options env)) (sizeChangeListeners st)).
Proof.
  rewrite updateSize_eq. cbv zeta. cbn [state_of].
  destruct (value_eq_dec (size st) (VStr (newSize options env))).
  - cbn. rewrite app_nil_r. reflexivity.
  - reflexivity.
Qed.

Lemma updateSize_size (options : Options) (env : Env) (st : State) :
  size (state_of (updateSize options env st)) = VStr (newSize options env).
Proof.
  rewrite updateSize_eq. cbv zeta. cbn [state_of].
  destruct (value_eq_dec (size st) (VStr (newSize options env))); reflexivity.
Qed.

Lemma updateSize_normal (options : Options) (env : Env) (st : State) :
  updateSize options env st = Normal tt (state_of (updateSize options env st)).
Proof. rewrite updateSize_eq. reflexivity. Qed.

Lemma updateSize_dispatches (options : Options) (env : Env) (st : State) :
  dispatches SizeChange (trace (state_of (updateSize options env st))) =
  (dispatches SizeChange (trace st)
   + (if value_eq_dec (size st) (VStr (newSize options env)) then 0 else 1))%nat.
Proof.
  rewrite updateSize_trace, dispatches_app. f_equal.
  destruct (value_eq_dec (size st) (VStr (newSize options env))); [reflexivity|].
  apply (dispatches_dispatch_obs SizeChange
           (set_size (VStr (newSize options env)) st)).
Qed.

Lemma updateSize_seq_dispatches (options : Options) (envs : list Env) :
  forall st : State,
    updateSize_seq options envs st
      = Normal tt (state_of (updateSize_seq options envs st))
    /\ dispatches SizeChange (trace (state_of (updateSize_seq options envs st)))
       = (dispatches SizeChange (trace st)
          + transitions (size st) (map (newSize options) envs))%nat.
Proof.
  induction envs as [|env envs IH]; intros st.
  - cbn. split; [reflexivity | lia].
  - cbn [updateSize_seq map transitions]. unfold bind.
    rewrite updateSize_normal.
    destruct (IH (state_of (updateSize options env st))) as [IH1 IH2].
    split; [exact IH1|].
    rewrite IH2, updateSize_dispatches, updateSize_size. lia.
Qed.

(** C2.  [updateSize] always returns normally with the computed label
    stored in [size]; it enters the size dispatch exactly when that label
    differs from the previous content of [size] (nothing is observed
    otherwise), and [null] differs from every label.  Over a sequence of
    calls the number of dispatches is the number of label changes, so a
    sequence computing small, small, medium, medium, large from the unset
    state dispatches three times. *)
Theorem updateSize_dispatches_on_change :
  forall options : Options,
    (forall (env : Env) (st : State),
        exists st' : State,
          updateSize options env st = Normal tt st'
          /\ size st' = VStr (newSize options env)
          /\ trace st' =
             trace st ++
               (if value_eq_dec (size st) (VStr (newSize options env))
                then []
                else Dispatch SizeChange
                     :: dispatch_calls (VStr (newSize options env))
                          (sizeChangeListeners st)))
    /\ (forall (env : Env) (st : State),
           size st = VNull ->
           dispatches SizeChange (trace (state_of (updateSize options env st)))
           = S (dispatches SizeChange (trace st)))
    /\ (forall (envs : list Env) (st : State),
           exists st' : State,
             updateSize_seq options envs st = Normal tt st'
             /\ dispatches SizeChange (trace st')
                = (dispatches SizeChange (trace st)
                   + transitions (size st) (map (newSize options) envs))%nat)
    /\ (forall (envs : list Env) (st : State),
           size st = VNull ->
           map (newSize options) envs
             = ["small"; "small"; "medium"; "medium"; "large"] ->
           exists st' : State,
             updateSize_seq options envs st = Normal tt st'
             /\ dispatches SizeChange (trace st')
                = (dispatches SizeChange (trace st) + 3)%nat).
Proof.
  intros options. repeat split.
  - intros env st. exists (state_of (updateSize options env st)).
    split; [apply updateSize_normal|].
    split; [apply updateSize_size | apply updateSize_trace].
  - intros env st H. rewrite updateSize_dispatches, H.
    destruct (value_eq_dec VNull (VStr (newSize options env))); [discriminate | lia].
  - intros envs st. eexists. apply updateSize_seq_dispatches.
  - intros envs st H L. eexists.
    destruct (updateSize_seq_dispatches options envs st) as [E D].
    split; [exact E|]. rewrite D, L, H. reflexivity.
Qed.

Lemma updateSize_dispatches_on_change_witness :
  exists st' : State,
    updateSize_seq default_options
      [host true false 0; host true true 0; host false true 0;
       host false true 0; host false false 0] initial_state
    = Normal tt st'
    /\ dispatches SizeChange (trace st') = 3%nat.
Proof.
  destruct (updateSize_dispatches_on_change default_options) as [_ [_ [_ H]]].
  apply (H [host true false 0; host true true 0; host false true 0;
            host false true 0; host false false 0] initial_state);
    reflexivity.
Defined.

(** C4.  The label computed by [updateSize] is the first match in the
    order small, medium, large: "small" whenever the small query matches
    (whatever the medium one answers), "medium" when only the medium query
    matches, "large" when neither does; that label is what [updateSize]
    stores. *)
Theorem classification_first_match :
  forall (options : Options) (env : Env) (st : State),
    (Modernizr_mq env (mq_small options) = true ->
     newSize options env = "small")
    /\ (Modernizr_mq env (mq_small options) = false ->
        Modernizr_mq env (mq_medium options) = true ->
        newSize options env = "medium")
    /\ (Modernizr_mq env (mq_small options) = false ->
        Modernizr_mq env (mq_medium options) = false ->
        newSize options env = "large")
    /\ size (state_of (updateSize options env st)) = VStr (newSize options env).
Proof.
  intros options env st. unfold newSize.
  repeat split.
  - intros ->. reflexivity.
  - intros -> ->. reflexivity.
  - intros -> ->. reflexivity.
  - apply updateSize_size.
Qed.

Lemma classification_first_match_witness :
  newSize default_options (host true true 0) = "small"
  /\ newSize default_options (host false true 0) = "medium"
  /\ newSize default_options (host false false 0) = "large".
Proof.
  split; [|split].
  - apply (proj1 (classification_first_match
                    default_options (host true true 0) initial_state)).
    reflexivity.
  - apply (proj1 (proj2 (classification_first_match
                           default_options (host false true 0) initial_state)));
      reflexivity.
  - apply (proj1 (proj2 (proj2 (classification_first_match
                           default_options (host false false 0) initial_state))));
      reflexivity.
Defined.

Lemma getSize_eq (options : Options) (env : Env) (st : State) :
  getSize options env st =
  (let st' := if strict_eq VNull (device_size st)
              then state_of (updateSize options env st)
              else st in
   Normal (size st') st').
Proof.
  unfold getSize, bind, gets. cbv beta iota zeta.
  destruct (strict_eq VNull (device_size st)).
  - rewrite updateSize_normal. reflexivity.
  - reflexivity.
Qed.

(** The test of [getSize] reads the property [device.size], which the
    object literal does not declare, not the variable [size]: in the state
    the constructor starts from, before [init] has run, [getSize] would
    run no [updateSize] and return [null].  No caller holds the object at
    that point: the constructor returns it after [init]. *)
Lemma getSize_unset_returns_null :
  forall (options : Options) (env : Env),
    size initial_state = VNull
    /\ getSize options env initial_state = Normal VNull initial_state
    /\ size (state_of (updateSize options env initial_state))
       = VStr (newSize options env).
Proof.
  intros options env. split; [reflexivity|].
  split; [reflexivity | apply updateSize_size].
Qed.

Lemma dispatch_calls_seen (seen : value) (l : list eventObj) :
  Forall (seen_is seen) (dispatch_calls seen l).
Proof.
  induction l as [|e l IH]; [constructor|].
  unfold dispatch_calls in *. cbn [flat_map].
  apply Forall_app. split; [|exact IH].
  unfold call_of. destruct (func e); repeat constructor.
Qed.

Lemma dispatch_calls_In (seen : value) (l : list eventObj)
    (f : nat) (a : list value) :
  In {| func := VFun f; args := a |} l ->
  In (Call f a seen) (dispatch_calls seen l).
Proof.
  intros H. unfold dispatch_calls. apply in_flat_map.
  exists {| func := VFun f; args := a |}. split; [exact H | left; reflexivity].
Qed.

(** C10.  [updateSize] stores the new label before it dispatches: every
    call observed during [updateSize] is made while [size] holds the new
    label, which then differs from the previous content; each function
    entry of the list is called so when the label changes; and [getSize]
    evaluated at any point of that dispatch returns the new label. *)
Theorem updateSize_assigns_before_dispatch :
  forall (options : Options) (env : Env) (st : State),
  exists (st' : State) (calls : list Obs),
    updateSize options env st = Normal tt st'
    /\ size st' = VStr (newSize options env)
    /\ trace st' = trace st ++ calls
    /\ Forall (seen_is (VStr (newSize options env))) calls
    /\ (calls <> [] -> size st <> VStr (newSize options env))
    /\ (forall (f : nat) (a : list value),
           size st <> VStr (newSize options env) ->
           In {| func := VFun f; args := a |} (sizeChangeListeners st) ->
           In (Call f a (VStr (newSize options env))) calls)
    /\ (forall pre : list Obs,
           getSize options env
             (log_all pre (set_size (VStr (newSize options env)) st))
           = Normal (VStr (newSize options env))
               (log_all pre (set_size (VStr (newSize options env)) st))).
Proof.
  intros options env st.
  exists (state_of (updateSize options env st)).
  eexists.
  split; [apply updateSize_normal|].
  split; [apply updateSize_size|].
  split; [apply updateSize_trace|].
  destruct (value_eq_dec (size st) (VStr (newSize options env))) as [E | N].
  - split; [constructor|]. split; [congruence|].
    split; [intros f a H; contradiction|].
    intros pre. rewrite getSize_eq. cbv zeta.
    destruct (strict_eq VNull _); [|reflexivity].
    rewrite updateSize_eq. cbv zeta. cbn [state_of size log_all set_size].
    destruct (value_eq_dec _ _); [reflexivity | congruence].
  - split; [constructor; [exact I | apply dispatch_calls_seen]|].
    split; [intros _; exact N|].
    split; [intros f a _ H; right; apply dispatch_calls_In; exact H|].
    intros pre. rewrite getSize_eq. cbv zeta.
    destruct (strict_eq VNull _); [|reflexivity].
    rewrite updateSize_eq. cbv zeta. cbn [state_of size log_all set_size].
    destruct (value_eq_dec _ _); [reflexivity | congruence].
Qed.

Lemma updateSize_assigns_before_dispatch_witness :
  exists st' : State,
    updateSize default_options (host false true 0)
      (push SizeChange {| func := VFun 3; args := [VStr "tag"] |}
         (set_size (VStr "small") initial_state))
    = Normal tt st'
    /\ In (Call 3 [VStr "tag"] (VStr "medium")) (trace st').
Proof.
  destruct (updateSize_assigns_before_dispatch default_options (host false true 0)
              (push SizeChange {| func := VFun 3; args := [VStr "tag"] |}
                 (set_size (VStr "small") initial_state)))
    as [st' [calls [E [_ [T [_ [_ [H _]]]]]]]].
  exists st'. split; [exact E|].
  rewrite T. apply in_or_app. right.
  apply (H 3%nat [VStr "tag"]).
  - discriminate.
  - left. reflexivity.
Defined.

(** ** Membership test *)

Lemma inArray_from_spec (elem : value) (arr : list value) :
  forall i : Z, 0 <= i ->
    (inArray_from i elem arr =? -1)
    = negb (existsb (fun x => strict_eq x elem) arr).
Proof.
  induction arr as [|x arr IH]; intros i Hi; cbn [inArray_from existsb].
  - reflexivity.
  - destruct (strict_eq x elem).
    + cbn [orb negb]. apply Z.eqb_neq. lia.
    + cbn [orb]. apply IH. lia.
Qed.

Lemma sizeIs_eq (options : Options) (env : Env) (arguments : list value)
    (st : State) :
  sizeIs options env arguments st =
  match getSize options env st with
  | Normal v st' =>
      Normal (VBool (existsb (fun x => strict_eq x v) arguments)) st'
  | Throw e st' => Throw e st'
  end.
Proof.
  unfold sizeIs, bind, ret, inArray.
  destruct (getSize options env st); [|reflexivity].
  rewrite inArray_from_spec by lia. rewrite negb_involutive. reflexivity.
Qed.

Lemma existsb_labels (v : value) (labels : list string) :
  existsb (fun x => strict_eq x v) (map VStr labels) = true
  <-> In v (map VStr labels).
Proof.
  rewrite existsb_exists. split.
  - intros [x [Hin Heq]]. apply in_map_iff in Hin as [s [<- Hs]].
    rewrite strict_eq_sym in Heq. apply strict_eq_VStr in Heq. subst v.
    apply in_map. exact Hs.
  - intros Hin. exists v. split; [exact Hin|].
    apply in_map_iff in Hin as [s [<- _]]. apply strict_eq_VStr. reflexivity.
Qed.

(** C8.  [sizeIs(labels...)] returns normally, in the state [getSize]
    leaves, the boolean telling whether the value returned by [getSize] is
    one of the given labels; with no argument it returns [false]; with
    ("large", "medium") it returns [true] when the size is "medium" and
    [false] when it is "small". *)
Theorem sizeIs_membership :
  forall (options : Options) (env : Env) (labels : list string) (st : State),
  exists (v : value) (st' : State) (b : bool),
    getSize options env st = Normal v st'
    /\ sizeIs options env (map VStr labels) st = Normal (VBool b) st'
    /\ (b = true <-> In v (map VStr labels))
    /\ sizeIs options env [] st = Normal (VBool false) st'
    /\ (v = VStr "medium" ->
        sizeIs options env [VStr "large"; VStr "medium"] st
        = Normal (VBool true) st')
    /\ (v = VStr "small" ->
        sizeIs options env [VStr "large"; VStr "medium"] st
        = Normal (VBool false) st').
Proof.
  intros options env labels st.
  rewrite !sizeIs_eq, getSize_eq. cbv zeta.
  eexists. eexists. eexists.
  split; [reflexivity|]. split; [reflexivity|].
  split; [apply existsb_labels|].
  split; [reflexivity|].
  split; intros ->; reflexivity.
Qed.

Lemma sizeIs_membership_witness :
  sizeIs default_options (host true false 0) [VStr "large"; VStr "medium"]
    (set_size (VStr "medium") initial_state)
  = Normal (VBool true) (set_size (VStr "medium") initial_state)
  /\ sizeIs default_options (host true false 0) [VStr "large"; VStr "medium"]
       (set_size (VStr "small") initial_state)
     = Normal (VBool false) (set_size (VStr "small") initial_state).
Proof.
  split.
  - destruct (sizeIs_membership default_options (host true false 0) []
                (set_size (VStr "medium") initial_state))
      as [v [st' [b [G [_ [_ [_ [H _]]]]]]]].
    injection G as <- <-. apply H. reflexivity.
  - destruct (sizeIs_membership default_options (host true false 0) []
                (set_size (VStr "small") initial_state))
      as [v [st' [b [G [_ [_ [_ [_ H]]]]]]]].
    injection G as <- <-. apply H. reflexivity.
Defined.

(** ** Properties kept by every operation *)

Lemma preserves_ret {A} (P : State -> Prop) (a : A) : preserves P (ret a).
Proof. intros st H. exact H. Qed.

Lemma preserves_bind {A B} (P : State -> Prop) (m : M State A) (k : A -> M State B) :
  preserves P m -> (forall a, preserves P (k a)) -> preserves P (bind m k).
Proof.
  intros Hm Hk st H. unfold bind. specialize (Hm st H).
  destruct (m st) as [a s | e s]; cbn [state_of] in *.
  - apply Hk. exact Hm.
  - exact Hm.
Qed.

Lemma preserves_jq_each {A} (P : State -> Prop) (cb : nat -> A -> M State unit) :
  (forall i x, preserves P (cb i x)) ->
  forall l i, preserves P (jq_each i l cb).
Proof.
  intros Hcb l. induction l as [|x l IH]; intros i; cbn [jq_each].
  - apply preserves_ret.
  - apply preserves_bind; [apply Hcb | intros _; apply IH].
Qed.

Section Stable.

Variable options : Options.
Variable P : State -> Prop.
Hypothesis P_stable : stable options P.

Lemma stable_log_all (obs : list Obs) : forall st, P st -> P (log_all obs st).
Proof.
  induction obs as [|o obs IH]; intros st H.
  - rewrite log_all_nil. exact H.
  - change (o :: obs) with ([o] ++ obs). rewrite <- log_all_app.
    apply IH. apply P_stable. exact H.
Qed.

Lemma preserves_addChangeEvent (k : Kind) (arguments : list value) :
  preserves P (addChangeEvent k arguments).
Proof.
  intros st H. rewrite addChangeEvent_eq. cbv zeta.
  destruct (is_true _); cbn [func args].
  - destruct (nth 0 arguments VUndefined); cbn [state_of]; try exact H.
    apply P_stable, P_stable, H.
  - apply P_stable, H.
Qed.

Lemma preserves_runChangeEvents (k : Kind) : preserves P (runChangeEvents k).
Proof.
  intros st H. rewrite runChangeEvents_eq. apply stable_log_all, H.
Qed.

Lemma preserves_updateSize (env : Env) : preserves P (updateSize options env).
Proof.
  intros st H. rewrite updateSize_eq. cbv zeta. cbn [state_of].
  destruct (value_eq_dec _ _).
  - apply P_stable, H.
  - apply stable_log_all, P_stable, H.
Qed.

Lemma preserves_getSize (env : Env) : preserves P (getSize options env).
Proof.
  intros st H. rewrite getSize_eq. cbv zeta. cbn [state_of].
  destruct (strict_eq _ _); [apply preserves_updateSize|]; exact H.
Qed.

Lemma preserves_trigger (env : Env) (ev : HostEvent) :
  preserves P (trigger options env ev).
Proof.
  intros st H. unfold trigger.
  apply preserves_jq_each; [|exact H].
  intros _ [e h]. cbn [fst snd].
  destruct (HostEvent_eqb e ev); [|apply preserves_ret].
  destruct h; [apply preserves_updateSize | apply preserves_runChangeEvents].
Qed.

Lemma preserves_step (env : Env) (o : Op) : preserves P (step options env o).
Proof.
  destruct o; cbn [step].
  - apply preserves_addChangeEvent.
  - apply preserves_addChangeEvent.
  - apply preserves_runChangeEvents.
  - apply preserves_runChangeEvents.
  - apply preserves_bind; [apply preserves_getSize | intros; apply preserves_ret].
  - apply preserves_bind; [|intros; apply preserves_ret].
    unfold sizeIs.
    apply preserves_bind; [apply preserves_getSize | intros; apply preserves_ret].
  - apply preserves_updateSize.
  - apply preserves_trigger.
Qed.

Lemma preserves_exec (prog : list (Env * Op)) :
  forall st, P st -> P (exec options prog st).
Proof.
  induction prog as [|[env o] prog IH]; intros st H; cbn [exec].
  - exact H.
  - apply IH, preserves_step, H.
Qed.

End Stable.

Lemma built_inv_stable (options : Options) : stable options built_inv.
Proof.
  unfold stable, built_inv. repeat split.
  - rewrite size_push. tauto.
  - destruct k; cbn; tauto.
  - destruct k; cbn; tauto.
  - cbn; tauto.
  - cbn; tauto.
  - cbn; tauto.
  - apply newSize_is_label.
  - cbn; tauto.
  - cbn; tauto.
Qed.

Lemma init_eq (options : Options) (env : Env) (st : State) :
  init options env st =
  Normal tt
    (on orientationchange call_runOrientationChangeEvents
       (on resize call_updateSize (state_of (updateSize options env st)))).
Proof.
  unfold init, bind. rewrite updateSize_normal. reflexivity.
Qed.

Lemma reachable_built_inv (options : Options) (st : State) :
  reachable options st -> built_inv st.
Proof.
  induction 1 as [env | env o st _ IH].
  - rewrite init_eq. cbn [state_of]. unfold built_inv.
    split; [|split].
    + cbn [size on]. rewrite updateSize_size. apply newSize_is_label.
    + cbn [device_size on]. rewrite updateSize_eq. cbv zeta. cbn [state_of].
      destruct (value_eq_dec _ _); reflexivity.
    + cbn [window_handlers on]. rewrite updateSize_eq. cbv zeta. cbn [state_of].
      destruct (value_eq_dec _ _); reflexivity.
  - apply (preserves_step options built_inv (built_inv_stable options)).
    exact IH.
Qed.

(** The constructor returns normally, in a state of a built instance. *)
Lemma Device_reachable (user : option Options) (env : Env) :
  Device user env = Normal tt (state_of (Device user env))
  /\ reachable (extend_options user) (state_of (Device user env)).
Proof.
  unfold Device. split.
  - rewrite init_eq. reflexivity.
  - apply reachable_built.
Qed.

(** [getOrientation] answers "portrait" exactly at the angle 0. *)
Lemma getOrientation_portrait (env : Env) :
  getOrientation env = VStr "portrait" <-> window_orientation env = VNum 0.
Proof.
  unfold getOrientation.
  destruct (window_orientation env) as [ | | b | n | | s | f | o]; cbn;
    try (split; discriminate).
  destruct (Z.eqb_spec n 0) as [-> | N].
  - split; reflexivity.
  - split; [discriminate | intros H; injection H as H; contradiction].
Qed.




(** ** Orientation events *)

Lemma trigger_orientationchange (options : Options) (env : Env) (st : State) :
  reachable options st ->
  trigger options env orientationchange st
  = Normal tt (log_all (dispatch_obs OrientationChange st) st).
Proof.
  intros H. apply reachable_built_inv in H as [_ [_ W]].
  unfold trigger. rewrite W. cbn [jq_each fst snd HostEvent_eqb run_handler].
  unfold bind, ret. unfold runOrientationChangeEvents.
  rewrite runChangeEvents_eq. reflexivity.
Qed.

(** C6.  On a built instance, every firing of the host event
    [orientationchange] is one whole dispatch of the orientation
    listeners, whatever [window.orientation] holds: two consecutive
    firings, with identical angles or not, make two dispatches, each
    calling every function entry of the list. *)
Theorem orientationchange_always_dispatches :
  forall (options : Options) (st : State),
    reachable options st ->
    forall env1 env2 : Env,
    exists st1 st2 : State,
      trigger options env1 orientationchange st = Normal tt st1
      /\ trigger options env1 orientationchange st = runOrientationChangeEvents st
      /\ trace st1 = trace st ++ dispatch_obs OrientationChange st
      /\ trigger options env2 orientationchange st1 = Normal tt st2
      /\ trace st2
         = trace st ++ dispatch_obs OrientationChange st
                    ++ dispatch_obs OrientationChange st
      /\ dispatches OrientationChange (trace st2)
         = (dispatches OrientationChange (trace st) + 2)%nat.
Proof.
  intros options st R env1 env2.
  assert (R1 : reachable options
                 (log_all (dispatch_obs OrientationChange st) st)).
  { pose proof (reachable_step options env1 (op_trigger orientationchange) st R)
      as R1.
    cbn [step] in R1.
    rewrite (trigger_orientationchange options env1 st R) in R1. exact R1. }
  exists (log_all (dispatch_obs OrientationChange st) st).
  exists (log_all (dispatch_obs OrientationChange st)
            (log_all (dispatch_obs OrientationChange st) st)).
  split; [apply trigger_orientationchange, R|].
  split.
  { rewrite (trigger_orientationchange options env1 st R).
    unfold runOrientationChangeEvents. rewrite runChangeEvents_eq. reflexivity. }
  split; [reflexivity|].
  split; [apply (trigger_orientationchange options env2 _ R1)|].
  split.
  - cbn [trace log_all]. rewrite <- app_assoc. reflexivity.
  - cbn [trace log_all]. rewrite !dispatches_app.
    rewrite (dispatches_dispatch_obs OrientationChange st). lia.
Qed.

Lemma orientationchange_always_dispatches_witness :
  exists st1 st2 : State,
    trigger default_options (host true false 90) orientationchange
      (state_of (init default_options (host true false 90) initial_state))
    = Normal tt st1
    /\ trigger default_options (host true false 90) orientationchange st1
       = Normal tt st2
    /\ dispatches OrientationChange (trace st2) = 2%nat.
Proof.
  destruct (orientationchange_always_dispatches default_options
              (state_of (init default_options (host true false 90) initial_state))
              (reachable_built default_options (host true false 90))
              (host true false 90) (host true false 90))
    as [st1 [st2 [E1 [_ [_ [E2 [_ D]]]]]]].
  exists st1, st2. split; [exact E1|]. split; [exact E2 | exact D].
Defined.

(** ** Registration followed by dispatch *)

Lemma dispatch_calls_regs (seen : value) (regs : list registration) :
  dispatch_calls seen (map reg_entry regs) = map (reg_call seen) regs.
Proof.
  induction regs as [|r regs IH]; [reflexivity|].
  unfold dispatch_calls in *. cbn [map flat_map]. rewrite IH. reflexivity.
Qed.

Lemma register_all_spec (k : Kind) (regs : list registration) :
  forall st : State,
  exists st1 : State,
    register_all k regs st = Normal tt st1
    /\ listeners k st1 = listeners k st ++ map reg_entry regs
    /\ size st1 = size st.
Proof.
  induction regs as [|r regs IH]; intros st; cbn [register_all map].
  - exists st. rewrite app_nil_r. repeat split.
  - unfold bind. rewrite addChangeEvent_eq. cbv zeta.
    unfold reg_arguments. cbn [nth skipn func args].
    destruct (is_true (reg_autoCall r)).
    + destruct (IH (push k {| func := VFun (reg_func r); args := reg_args r |}
                      (log (Call (reg_func r) (reg_args r) (size st)) st)))
        as [st1 [E [L S]]].
      exists st1. split; [exact E|]. split.
      * rewrite L, listeners_push. rewrite <- app_assoc.
        destruct k; reflexivity.
      * rewrite S, size_push. reflexivity.
    + destruct (IH (push k {| func := VFun (reg_func r); args := reg_args r |} st))
        as [st1 [E [L S]]].
      exists st1. split; [exact E|]. split.
      * rewrite L, listeners_push. rewrite <- app_assoc. reflexivity.
      * rewrite S, size_push. reflexivity.
Qed.

Lemma extends_stable (options : Options) (k : Kind) (l : list eventObj) :
  stable options (extends k l).
Proof.
  unfold stable, extends. repeat split.
  - intros k' e st [added H]. destruct k, k'; cbn in *;
      try (exists added; exact H);
      exists (added ++ [e]); rewrite H, app_assoc; reflexivity.
  - intros o st [added H]. exists added. destruct k; exact H.
  - intros env st [added H]. exists added. destruct k; exact H.
Qed.

(** C7.  Registering any number of functions, each with its own bound
    arguments, returns normally and appends their entries in order;
    the dispatch that follows calls, after the functions registered
    before, exactly the registered ones in registration order, each with
    its own bound arguments (on a list that was empty, exactly those).
    No program of operations ever removes or reorders an entry: each
    listener list after the program extends the list before it. *)
Theorem register_then_dispatch :
  forall (k : Kind) (regs : list registration) (st : State),
    (exists st1 st2 : State,
        register_all k regs st = Normal tt st1
        /\ listeners k st1 = listeners k st ++ map reg_entry regs
        /\ runChangeEvents k st1 = Normal tt st2
        /\ trace st2
           = trace st1
             ++ Dispatch k
                :: dispatch_calls (size st) (listeners k st)
             ++ map (reg_call (size st)) regs
        /\ (listeners k st = [] ->
            trace st2 = trace st1 ++ Dispatch k :: map (reg_call (size st)) regs))
    /\ (forall (options : Options) (prog : list (Env * Op)) (k' : Kind),
           exists added : list eventObj,
             listeners k' (exec options prog st) = listeners k' st ++ added).
Proof.
  intros k regs st. split.
  - destruct (register_all_spec k regs st) as [st1 [E [L S]]].
    exists st1, (log_all (dispatch_obs k st1) st1).
    split; [exact E|]. split; [exact L|].
    split; [apply runChangeEvents_eq|].
    assert (T : trace (log_all (dispatch_obs k st1) st1)
                = trace st1
                  ++ Dispatch k
                     :: dispatch_calls (size st) (listeners k st)
                  ++ map (reg_call (size st)) regs).
    { cbn [trace log_all]. unfold dispatch_obs.
      rewrite L, S, dispatch_calls_app, dispatch_calls_regs. reflexivity. }
    split; [exact T|].
    intros Hnil. rewrite T, Hnil. reflexivity.
  - intros options prog k'.
    apply (preserves_exec options (extends k' (listeners k' st))
             (extends_stable options k' (listeners k' st)) prog st).
    exists []. rewrite app_nil_r. reflexivity.
Qed.

Lemma register_then_dispatch_witness :
  exists st1 st2 : State,
    register_all SizeChange
      [ {| reg_func := 1; reg_autoCall := VBool false; reg_args := [VStr "a"] |};
        {| reg_func := 2; reg_autoCall := VUndefined; reg_args := [] |};
        {| reg_func := 1; reg_autoCall := VBool false; reg_args := [VNum 5; VNull] |} ]
      initial_state
    = Normal tt st1
    /\ runChangeEvents SizeChange st1 = Normal tt st2
    /\ trace st2
       = trace st1
         ++ [Dispatch SizeChange;
             Call 1 [VStr "a"] VNull; Call 2 [] VNull; Call 1 [VNum 5; VNull] VNull].
Proof.
  destruct (register_then_dispatch SizeChange
      [ {| reg_func := 1; reg_autoCall := VBool false; reg_args := [VStr "a"] |};
        {| reg_func := 2; reg_autoCall := VUndefined; reg_args := [] |};
        {| reg_func := 1; reg_autoCall := VBool false; reg_args := [VNum 5; VNull] |} ]
      initial_state) as [[st1 [st2 [E [_ [R [_ H]]]]]] _].
  exists st1, st2. split; [exact E|]. split; [exact R|].
  apply H. reflexivity.
Defined.

(** ** Exceptions *)

(** X1.  Registering a primitive value (undefined, null, a boolean, a
    number, a string) with [autoCall] set to the boolean [true] raises a
    TypeError from the immediate call, and no user function is called. *)
Theorem registration_of_primitive_with_autoCall_throws :
  forall (v : value) (rest : list value) (st : State),
    primitive v = true ->
    (exists st' : State,
        addSizeChangeEvent (v :: VBool true :: rest) st = Throw TypeError st'
        /\ trace st' = trace st)
    /\ (exists st' : State,
           addOrientationChangeEvent (v :: VBool true :: rest) st
           = Throw TypeError st'
           /\ trace st' = trace st).
Proof.
  intros v rest st H. unfold addSizeChangeEvent, addOrientationChangeEvent.
  rewrite !addChangeEvent_eq. cbv zeta. cbn [nth is_true func].
  destruct v; try discriminate; split; eexists; split; reflexivity.
Qed.

Lemma registration_of_primitive_with_autoCall_throws_witness :
  exists st' : State,
    addSizeChangeEvent [VStr "notAFunction"; VBool true; VNum 1] initial_state
    = Throw TypeError st'
    /\ trace st' = trace initial_state.
Proof.
  apply (proj1 (registration_of_primitive_with_autoCall_throws
                  (VStr "notAFunction") [VNum 1] initial_state eq_refl)).
Defined.

(** *** Listeners that fail *)

Lemma jq_each_ext {A} (cb cb' : nat -> A -> M State unit) :
  (forall i x st, cb i x st = cb' i x st) ->
  forall l i st, jq_each i l cb st = jq_each i l cb' st.
Proof.
  intros E l. induction l as [|x l IH]; intros i st; cbn [jq_each].
  - reflexivity.
  - unfold bind. rewrite E. destruct (cb' i x st); [apply IH | reflexivity].
Qed.

Lemma Fault_apply_quiet (f : value) (actuals : list value) (st : State) :
  Fault.apply (fun _ _ _ => false) f actuals st = apply f actuals st.
Proof. destruct f; reflexivity. Qed.

(** When no user function throws, the methods of [Fault] are the methods
    of the monitor. *)
Lemma Fault_agrees_when_no_listener_raises :
  (forall k st, Fault.runChangeEvents (fun _ _ _ => false) k st
                = runChangeEvents k st)
  /\ (forall k arguments st,
         Fault.addChangeEvent (fun _ _ _ => false) k arguments st
         = addChangeEvent k arguments st)
  /\ (forall options env st,
         Fault.updateSize (fun _ _ _ => false) options env st
         = updateSize options env st).
Proof.
  assert (R : forall k st, Fault.runChangeEvents (fun _ _ _ => false) k st
                           = runChangeEvents k st).
  { intros k st. unfold Fault.runChangeEvents, runChangeEvents, bind, modify.
    apply jq_each_ext. intros i x s.
    destruct (loose_eq _ _); [apply Fault_apply_quiet | reflexivity]. }
  split; [exact R|]. split.
  - intros k arguments st. unfold Fault.addChangeEvent, addChangeEvent.
    destruct (loose_eq _ _); [reflexivity|]. cbv zeta. unfold bind.
    destruct (strict_eq _ _); [|reflexivity].
    rewrite Fault_apply_quiet. reflexivity.
  - intros options env st. unfold Fault.updateSize, updateSize, bind, gets, modify.
    cbv beta iota zeta. destruct (negb _); [apply R | reflexivity].
Qed.

Section FaultyDispatch.

Variable raises : nat -> list value -> value -> bool.

Lemma Fault_loop_quiet (l : list eventObj) :
  forall (i : nat) (st : State),
    existsb (raises_entry raises (size st)) l = false ->
    jq_each i l
      (fun _ eventObj =>
         if loose_eq (VStr (typeof (func eventObj))) (VStr "function")
         then Fault.apply raises (func eventObj) (args eventObj)
         else ret tt)
      st
    = Normal tt (log_all (dispatch_calls (size st) l) st).
Proof.
  induction l as [|e l IH]; intros i st Q;
    cbn [jq_each dispatch_calls flat_map existsb] in *.
  - rewrite log_all_nil. reflexivity.
  - apply orb_false_iff in Q as [Qe Ql].
    unfold bind. rewrite typeof_function.
    unfold call_of, Fault.apply, raises_entry in *.
    destruct (func e); cbn [callable]; unfold ret;
      try (rewrite (IH _ _ Ql); reflexivity).
    rewrite Qe. rewrite (IH _ (log (Call f (args e) (size st)) st) Ql).
    rewrite log_is_log_all, log_all_app. reflexivity.
Qed.

Lemma Fault_loop_abort (before after : list eventObj) (f : nat) (a : list value) :
  forall (i : nat) (st : State),
    existsb (raises_entry raises (size st)) before = false ->
    raises f a (size st) = true ->
    jq_each i (before ++ {| func := VFun f; args := a |} :: after)
      (fun _ eventObj =>
         if loose_eq (VStr (typeof (func eventObj))) (VStr "function")
         then Fault.apply raises (func eventObj) (args eventObj)
         else ret tt)
      st
    = Throw (Raised f)
        (log_all (dispatch_calls (size st) before ++ [Call f a (size st)]) st).
Proof.
  induction before as [|e before IH]; intros i st Q T;
    cbn [app jq_each dispatch_calls flat_map existsb] in *.
  - unfold bind. cbn [func args typeof loose_eq]. cbn.
    unfold Fault.apply. rewrite T. reflexivity.
  - apply orb_false_iff in Q as [Qe Ql].
    unfold bind. rewrite typeof_function.
    unfold call_of, Fault.apply, raises_entry in *.
    destruct (func e); cbn [callable]; unfold ret;
      try (rewrite (IH _ _ Ql T); reflexivity).
    rewrite Qe.
    rewrite (IH _ (log (Call f0 (args e) (size st)) st) Ql T).
    rewrite log_is_log_all, log_all_app. reflexivity.
Qed.

End FaultyDispatch.

Lemma Fault_runChangeEvents_quiet
    (raises : nat -> list value -> value -> bool) (k : Kind) (st : State) :
  existsb (raises_entry raises (size st)) (listeners k st) = false ->
  Fault.runChangeEvents raises k st = Normal tt (log_all (dispatch_obs k st) st).
Proof.
  intros Q. unfold Fault.runChangeEvents, bind, modify.
  replace (listeners k (log (Dispatch k) st)) with (listeners k st)
    by (destruct k; reflexivity).
  rewrite Fault_loop_quiet by exact Q.
  rewrite log_is_log_all, log_all_app. reflexivity.
Qed.

Lemma Fault_runChangeEvents_abort
    (raises : nat -> list value -> value -> bool) (k : Kind) (st : State)
    (before after : list eventObj) (f : nat) (a : list value) :
  listeners k st = before ++ {| func := VFun f; args := a |} :: after ->
  existsb (raises_entry raises (size st)) before = false ->
  raises f a (size st) = true ->
  Fault.runChangeEvents raises k st
  = Throw (Raised f)
      (log_all
         (Dispatch k :: dispatch_calls (size st) before ++ [Call f a (size st)])
         st).
Proof.
  intros L Q T. unfold Fault.runChangeEvents, bind, modify.
  replace (listeners k (log (Dispatch k) st)) with (listeners k st)
    by (destruct k; reflexivity).
  rewrite L. rewrite Fault_loop_abort by assumption.
  rewrite log_is_log_all, log_all_app. reflexivity.
Qed.

(** X2.  A listener that throws aborts the dispatch: when the entries
    before it return, the dispatch calls them and the failing function, in
    order, then ends with that function's exception; the entries after it
    are not called.  When no called entry throws the dispatch returns
    after calling every function entry. *)
Theorem listener_fault_aborts_dispatch :
  forall (raises : nat -> list value -> value -> bool) (k : Kind) (st : State),
    (existsb (raises_entry raises (size st)) (listeners k st) = false ->
     Fault.runChangeEvents raises k st
     = Normal tt (log_all (dispatch_obs k st) st))
    /\ (forall (before after : list eventObj) (f : nat) (a : list value),
           listeners k st = before ++ {| func := VFun f; args := a |} :: after ->
           existsb (raises_entry raises (size st)) before = false ->
           raises f a (size st) = true ->
           Fault.runChangeEvents raises k st
           = Throw (Raised f)
               (log_all
                  (Dispatch k
                   :: dispatch_calls (size st) before ++ [Call f a (size st)])
                  st)).
Proof.
  intros raises k st. split.
  - apply Fault_runChangeEvents_quiet.
  - intros before after f a. apply Fault_runChangeEvents_abort.
Qed.

Lemma listener_fault_aborts_dispatch_witness :
  Fault.runChangeEvents (fun f _ _ => Nat.eqb f 2) SizeChange
    (push SizeChange {| func := VFun 3; args := [] |}
       (push SizeChange {| func := VFun 2; args := [VStr "b"] |}
          (push SizeChange {| func := VFun 1; args := [VStr "a"] |}
             initial_state)))
  = Throw (Raised 2)
      (log_all [Dispatch SizeChange; Call 1 [VStr "a"] VNull; Call 2 [VStr "b"] VNull]
         (push SizeChange {| func := VFun 3; args := [] |}
            (push SizeChange {| func := VFun 2; args := [VStr "b"] |}
               (push SizeChange {| func := VFun 1; args := [VStr "a"] |}
                  initial_state)))).
Proof.
  apply (proj2 (listener_fault_aborts_dispatch (fun f _ _ => Nat.eqb f 2) SizeChange
                  (push SizeChange {| func := VFun 3; args := [] |}
                     (push SizeChange {| func := VFun 2; args := [VStr "b"] |}
                        (push SizeChange {| func := VFun 1; args := [VStr "a"] |}
                           initial_state))))
          [{| func := VFun 1; args := [VStr "a"] |}]
          [{| func := VFun 3; args := [] |}] 2%nat [VStr "b"]);
    reflexivity.
Defined.

(** X18.  [updateSize] has stored the new label when it dispatches, so a
    size listener that throws leaves the change recorded: the exception
    leaves [updateSize] with [size] holding the new label, after the calls
    up to the failing one, and a further [updateSize] under the same host
    state returns without dispatching.  The entries after the failing one
    are not called for that change. *)
Theorem updateSize_stores_label_before_fault :
  forall (raises : nat -> list value -> value -> bool)
         (options : Options) (env : Env) (st : State)
         (before after : list eventObj) (f : nat) (a : list value),
    sizeChangeListeners st = before ++ {| func := VFun f; args := a |} :: after ->
    size st <> VStr (newSize options env) ->
    existsb (raises_entry raises (VStr (newSize options env))) before = false ->
    raises f a (VStr (newSize options env)) = true ->
    exists st1 : State,
      Fault.updateSize raises options env st = Throw (Raised f) st1
      /\ size st1 = VStr (newSize options env)
      /\ trace st1
         = trace st
           ++ Dispatch SizeChange
              :: dispatch_calls (VStr (newSize options env)) before
           ++ [Call f a (VStr (newSize options env))]
      /\ Fault.updateSize raises options env st1 = Normal tt st1.
Proof.
  intros raises options env st before after f a L N Q T.
  pose proof (loose_eq_label (newSize options env)) as LE.
  eexists. split.
  - unfold Fault.updateSize, bind, gets, modify. cbv beta iota zeta.
    destruct (loose_eq (VStr (newSize options env)) (size st)) eqn:E.
    + exfalso. apply N. apply (LE (size st)); [apply newSize_is_label | exact E].
    + cbn [negb].
      apply (Fault_runChangeEvents_abort raises SizeChange
               (set_size (VStr (newSize options env)) st) before after f a);
        assumption.
  - split; [reflexivity|]. split; [reflexivity|].
    unfold Fault.updateSize, bind, gets, modify. cbv beta iota zeta.
    cbn [size log_all set_size].
    replace (loose_eq (VStr (newSize options env)) (VStr (newSize options env)))
      with true
      by (symmetry; apply (LE (VStr (newSize options env)));
          [apply newSize_is_label | reflexivity]).
    reflexivity.
Qed.

Lemma updateSize_stores_label_before_fault_witness :
  exists st1 : State,
    Fault.updateSize (fun f _ _ => Nat.eqb f 1) default_options (host false true 0)
      (push SizeChange {| func := VFun 2; args := [] |}
         (push SizeChange {| func := VFun 1; args := [] |}
            (set_size (VStr "small") initial_state)))
    = Throw (Raised 1) st1
    /\ size st1 = VStr "medium"
    /\ trace st1 = [Dispatch SizeChange; Call 1 [] (VStr "medium")].
Proof.
  destruct (updateSize_stores_label_before_fault
              (fun f _ _ => Nat.eqb f 1) default_options (host false true 0)
              (push SizeChange {| func := VFun 2; args := [] |}
                 (push SizeChange {| func := VFun 1; args := [] |}
                    (set_size (VStr "small") initial_state)))
              [] [{| func := VFun 2; args := [] |}] 1%nat [])
    as [st1 [E [S [T _]]]];
    try reflexivity; try discriminate.
  exists st1. split; [exact E|]. split; [exact S | exact T].
Defined.

(** X3.  The second argument of a registration is always taken as
    [autoCall], whatever its type, and is never passed to the callback:
    registering a function with one further argument binds no argument,
    and the dispatch that follows calls the function with none. *)
Theorem second_argument_is_never_bound :
  forall (k : Kind) (f : nat) (x : value) (st : State),
  exists st1 st2 : State,
    addChangeEvent k [VFun f; x] st = Normal tt st1
    /\ listeners k st1 = listeners k st ++ [{| func := VFun f; args := [] |}]
    /\ runChangeEvents k st1 = Normal tt st2
    /\ trace st2
       = trace st1
         ++ Dispatch k
            :: dispatch_calls (size st) (listeners k st)
         ++ [Call f [] (size st)].
Proof.
  intros k f x st. rewrite addChangeEvent_eq. cbv zeta.
  cbn [nth skipn func args].
  assert (D : forall st1,
             listeners k st1 = listeners k st ++ [{| func := VFun f; args := [] |}] ->
             size st1 = size st ->
             trace (log_all (dispatch_obs k st1) st1)
             = trace st1
               ++ Dispatch k
                  :: dispatch_calls (size st) (listeners k st)
               ++ [Call f [] (size st)]).
  { intros st1 L S. cbn [trace log_all]. unfold dispatch_obs.
    rewrite L, S, dispatch_calls_app. reflexivity. }
  destruct (is_true x).
  - eexists. eexists. split; [reflexivity|].
    split; [destruct k; reflexivity|].
    split; [apply runChangeEvents_eq|].
    apply D; destruct k; reflexivity.
  - eexists. eexists. split; [reflexivity|].
    split; [apply listeners_push|].
    split; [apply runChangeEvents_eq|].
    apply D; [apply listeners_push | apply size_push].
Qed.

(** ** Construction *)

(** X4.  [new Device(options)] always returns.  The instance it leaves has
    the label of the host at that time in [size], empty listener lists,
    one [resize] and one [orientationchange] binding on the window, in
    that order; the first classification entered the size dispatch once
    and called nothing. *)
Theorem Device_builds :
  forall (user : option Options) (env : Env),
    Device user env =
    Normal tt
      {| size := VStr (newSize (extend_options user) env);
         sizeChangeListeners := [];
         orientationChangeListeners := [];
         device_size := VUndefined;
         window_handlers :=
           [(resize, call_updateSize);
            (orientationchange, call_runOrientationChangeEvents)];
         trace := [Dispatch SizeChange] |}.
Proof.
  intros user env. unfold Device. rewrite init_eq, updateSize_eq.
  cbv zeta. cbn [state_of size initial_state].
  destruct (value_eq_dec VNull _); [discriminate | reflexivity].
Qed.

(** ** Built instances *)

Lemma set_size_same (st : State) : set_size (size st) st = st.
Proof. destruct st; reflexivity. Qed.

Lemma bound_inv_stable (options : Options) : stable options bound_inv.
Proof.
  unfold stable, bound_inv. repeat split.
  - rewrite size_push. tauto.
  - destruct k; cbn; tauto.
  - cbn; tauto.
  - cbn; tauto.
  - apply newSize_is_label.
  - cbn; tauto.
Qed.

Lemma bound_inv_on (ev : HostEvent) (h : Handler) (st : State) :
  bound_inv st -> bound_inv (on ev h st).
Proof.
  intros [L [more W]]. split; [exact L|].
  exists (more ++ [(ev, h)]). cbn [window_handlers on]. rewrite W.
  rewrite <- app_assoc. reflexivity.
Qed.

Lemma bound_inv_init (options : Options) (env : Env) (st : State) :
  bound_inv st -> bound_inv (state_of (init options env st)).
Proof.
  intros H. rewrite init_eq. cbn [state_of].
  apply bound_inv_on, bound_inv_on.
  apply (preserves_updateSize options bound_inv (bound_inv_stable options)).
  exact H.
Qed.

Lemma reachable_all_bound_inv (options : Options) (st : State) :
  reachable_all options st -> bound_inv st.
Proof.
  induction 1 as [env | env m st _ IH].
  - rewrite init_eq. cbn [state_of]. split.
    + cbn [size on]. rewrite updateSize_size. apply newSize_is_label.
    + exists []. cbn [window_handlers on].
      rewrite updateSize_eq. cbv zeta. cbn [state_of].
      destruct (value_eq_dec _ _); reflexivity.
  - destruct m; cbn [call].
    + apply (preserves_step options bound_inv (bound_inv_stable options)).
      exact IH.
    + apply bound_inv_init. exact IH.
    + apply bound_inv_on. exact IH.
    + apply bound_inv_on. exact IH.
Qed.

(** X5.  On every state reached from construction by calls of any method
    of the object ([init], [initSizeListener] and [initOrientationListener]
    included) and by host events, [size] holds one of the three labels,
    [getSize] returns a label, and the two bindings made by the
    constructor are still the first on the window: a binding is never
    removed. *)
Theorem size_is_a_label_once_built :
  forall (options : Options) (st : State),
    reachable_all options st ->
    is_label (size st)
    /\ (forall env : Env,
           exists (v : value) (st' : State),
             getSize options env st = Normal v st' /\ is_label v)
    /\ exists more : list (HostEvent * Handler),
         window_handlers st
         = [(resize, call_updateSize);
            (orientationchange, call_runOrientationChangeEvents)] ++ more.
Proof.
  intros options st R. apply reachable_all_bound_inv in R as [L W].
  split; [exact L|]. split; [|exact W].
  intros env. rewrite getSize_eq. cbv zeta.
  eexists. eexists. split; [reflexivity|].
  destruct (strict_eq VNull _); [|exact L].
  rewrite updateSize_size. apply newSize_is_label.
Qed.

Lemma size_is_a_label_once_built_witness :
  is_label
    (size
       (state_of
          (call default_options (host false false 0) m_initOrientationListener
             (state_of
                (call default_options (host false true 0) (m_op (op_trigger resize))
                   (state_of (init default_options (host true false 0)
                                initial_state))))))).
Proof.
  apply (proj1 (size_is_a_label_once_built default_options _
                  (reachable_all_call default_options (host false false 0)
                     m_initOrientationListener _
                     (reachable_all_call default_options (host false true 0)
                        (m_op (op_trigger resize)) _
                        (reachable_all_built default_options
                           (host true false 0)))))).
Defined.

(** X6.  On a built instance the queries are read-only: [getSize] returns
    the label held in [size] and [sizeIs] returns a boolean, both leaving
    the state as it was; neither runs [updateSize], whatever the host
    reports at that time. *)
Theorem queries_are_read_only :
  forall (options : Options) (st : State),
    reachable options st ->
    forall (env : Env) (arguments : list value),
      getSize options env st = Normal (size st) st
      /\ exists b : bool,
           sizeIs options env arguments st = Normal (VBool b) st.
Proof.
  intros options st R env arguments.
  apply reachable_built_inv in R as [_ [D _]].
  rewrite sizeIs_eq, getSize_eq, D. cbv zeta. cbn [strict_eq].
  split; [reflexivity | eexists; reflexivity].
Qed.

Lemma queries_are_read_only_witness :
  getSize default_options (host false false 0)
    (state_of (init default_options (host true false 0) initial_state))
  = Normal (VStr "small")
      (state_of (init default_options (host true false 0) initial_state)).
Proof.
  apply (proj1 (queries_are_read_only default_options _
                  (reachable_built default_options (host true false 0))
                  (host false false 0) [])).
Defined.

(** X7.  On a built instance, [sizeIs("small", "medium", "large")] is
    true, and exactly one of [sizeIs("small")], [sizeIs("medium")],
    [sizeIs("large")] is. *)
Theorem sizeIs_exactly_one_label :
  forall (options : Options) (st : State),
    reachable options st ->
    forall env : Env,
      sizeIs options env [VStr "small"; VStr "medium"; VStr "large"] st
      = Normal (VBool true) st
      /\ exists b1 b2 b3 : bool,
           sizeIs options env [VStr "small"] st = Normal (VBool b1) st
           /\ sizeIs options env [VStr "medium"] st = Normal (VBool b2) st
           /\ sizeIs options env [VStr "large"] st = Normal (VBool b3) st
           /\ ((b1, b2, b3) = (true, false, false)
               \/ (b1, b2, b3) = (false, true, false)
               \/ (b1, b2, b3) = (false, false, true)).
Proof.
  intros options st R env.
  apply reachable_built_inv in R as [L [D _]].
  rewrite !sizeIs_eq, getSize_eq, D. cbv zeta. cbn [strict_eq].
  destruct L as [L | [L | L]]; rewrite L; (split; [reflexivity|]);
    eexists; eexists; eexists;
    (split; [reflexivity|]); (split; [reflexivity|]); (split; [reflexivity|]);
    cbn; auto.
Qed.

Lemma sizeIs_exactly_one_label_witness :
  sizeIs default_options (host true false 0)
    [VStr "small"; VStr "medium"; VStr "large"]
    (state_of (init default_options (host false true 0) initial_state))
  = Normal (VBool true)
      (state_of (init default_options (host false true 0) initial_state)).
Proof.
  apply (proj1 (sizeIs_exactly_one_label default_options _
                  (reachable_built default_options (host false true 0))
                  (host true false 0))).
Defined.

(** X8.  On a built instance a host [resize] event runs [updateSize] and
    nothing else; when the label computed at that time is the one already
    held, the event changes nothing: no dispatch, no call. *)
Theorem resize_runs_updateSize :
  forall (options : Options) (st : State),
    reachable options st ->
    forall env : Env,
      trigger options env resize st = updateSize options env st
      /\ (size st = VStr (newSize options env) ->
          trigger options env resize st = Normal tt st).
Proof.
  intros options st R env.
  apply reachable_built_inv in R as [_ [_ W]].
  assert (T : trigger options env resize st = updateSize options env st).
  { unfold trigger. rewrite W. cbn [jq_each fst snd HostEvent_eqb run_handler].
    unfold bind, ret. rewrite updateSize_normal. reflexivity. }
  split; [exact T|].
  intros E. rewrite T, updateSize_eq. cbv zeta.
  destruct (value_eq_dec _ _) as [_ | N]; [|contradiction].
  rewrite <- E, set_size_same. reflexivity.
Qed.

Lemma resize_runs_updateSize_witness :
  trigger default_options (host true true 0) resize
    (state_of (init default_options (host true false 0) initial_state))
  = Normal tt (state_of (init default_options (host true false 0) initial_state)).
Proof.
  apply (proj2 (resize_runs_updateSize default_options _
                  (reachable_built default_options (host true false 0))
                  (host true true 0))).
  reflexivity.
Defined.

(** X9.  [updateSize] is idempotent under one host state: a second call
    right after the first changes nothing, so no listener is called
    twice for one change. *)
Theorem updateSize_idempotent :
  forall (options : Options) (env : Env) (st : State),
    updateSize options env (state_of (updateSize options env st))
    = Normal tt (state_of (updateSize options env st)).
Proof.
  intros options env st.
  rewrite (updateSize_eq options env (state_of (updateSize options env st))).
  cbv zeta. rewrite updateSize_size.
  destruct (value_eq_dec _ _) as [_ | N]; [|contradiction].
  rewrite <- (updateSize_size options env st) at 1.
  rewrite set_size_same. reflexivity.
Qed.

(** ** The two registries *)

Lemma size_addChangeEvent (k : Kind) (arguments : list value) (st : State) :
  size (state_of (addChangeEvent k arguments st)) = size st.
Proof.
  rewrite addChangeEvent_eq. cbv zeta.
  destruct (is_true _); cbn [func args].
  - destruct (nth 0 arguments VUndefined); cbn [state_of];
      try reflexivity; rewrite size_push; reflexivity.
  - cbn [state_of]. apply size_push.
Qed.

Lemma runChangeEvents_trace (k : Kind) (st : State) :
  trace (state_of (runChangeEvents k st)) = trace st ++ dispatch_obs k st.
Proof. rewrite runChangeEvents_eq. reflexivity. Qed.

(** X10.  The size and the orientation registries do not interfere: a
    registration on one list leaves the other list as it was, and the
    dispatch of the other list observes exactly what it would have
    observed without that registration. *)
Theorem registries_are_independent :
  forall (arguments : list value) (st : State),
    orientationChangeListeners (state_of (addSizeChangeEvent arguments st))
    = orientationChangeListeners st
    /\ sizeChangeListeners (state_of (addOrientationChangeEvent arguments st))
       = sizeChangeListeners st
    /\ (exists obs : list Obs,
           trace (state_of (runOrientationChangeEvents st)) = trace st ++ obs
           /\ trace (state_of (runOrientationChangeEvents
                                 (state_of (addSizeChangeEvent arguments st))))
              = trace (state_of (addSizeChangeEvent arguments st)) ++ obs)
    /\ (exists obs : list Obs,
           trace (state_of (runSizeChangeEvents st)) = trace st ++ obs
           /\ trace (state_of (runSizeChangeEvents
                                 (state_of (addOrientationChangeEvent arguments st))))
              = trace (state_of (addOrientationChangeEvent arguments st)) ++ obs).
Proof.
  intros arguments st.
  assert (LS : orientationChangeListeners (state_of (addSizeChangeEvent arguments st))
               = orientationChangeListeners st).
  { unfold addSizeChangeEvent. rewrite addChangeEvent_eq. cbv zeta.
    destruct (is_true _); cbn [func]; [|reflexivity].
    destruct (nth 0 arguments VUndefined); reflexivity. }
  assert (LO : sizeChangeListeners (state_of (addOrientationChangeEvent arguments st))
               = sizeChangeListeners st).
  { unfold addOrientationChangeEvent. rewrite addChangeEvent_eq. cbv zeta.
    destruct (is_true _); cbn [func]; [|reflexivity].
    destruct (nth 0 arguments VUndefined); reflexivity. }
  split; [exact LS|]. split; [exact LO|]. split.
  - exists (dispatch_obs OrientationChange st).
    unfold runOrientationChangeEvents. rewrite !runChangeEvents_trace.
    split; [reflexivity|]. f_equal. unfold dispatch_obs. cbn [listeners].
    rewrite LS. unfold addSizeChangeEvent. rewrite size_addChangeEvent.
    reflexivity.
  - exists (dispatch_obs SizeChange st).
    unfold runSizeChangeEvents. rewrite !runChangeEvents_trace.
    split; [reflexivity|]. f_equal. unfold dispatch_obs. cbn [listeners].
    rewrite LO. unfold addOrientationChangeEvent. rewrite size_addChangeEvent.
    reflexivity.
Qed.

Lemma dispatch_obs_log_all (k : Kind) (obs : list Obs) (st : State) :
  dispatch_obs k (log_all obs st) = dispatch_obs k st.
Proof. destruct k; reflexivity. Qed.

(** X11.  A dispatch consumes nothing: it leaves [size] and both listener
    lists as they were, so [n] consecutive dispatches of a list observe
    [n] times the same run of calls. *)
Theorem dispatch_is_repeatable :
  forall (k : Kind) (n : nat) (st : State),
    runChangeEvents_times k n st
    = Normal tt (log_all (repeat_obs n (dispatch_obs k st)) st).
Proof.
  intros k n. induction n as [|n IH]; intros st; cbn [runChangeEvents_times repeat_obs].
  - unfold ret. rewrite log_all_nil. reflexivity.
  - unfold bind. rewrite runChangeEvents_eq, IH.
    rewrite dispatch_obs_log_all, log_all_app. reflexivity.
Qed.

(** ** Call counts *)

Lemma calls_to_app (f : nat) (a b : list Obs) :
  calls_to f (a ++ b) = (calls_to f a + calls_to f b)%nat.
Proof. unfold calls_to. rewrite filter_app, length_app. reflexivity. Qed.

Lemma calls_to_dispatch_calls (f : nat) (seen : value) (l : list eventObj) :
  calls_to f (dispatch_calls seen l) = entries_of f l.
Proof.
  induction l as [|e l IH]; [reflexivity|].
  unfold dispatch_calls in *. cbn [flat_map]. rewrite calls_to_app, IH.
  unfold entries_of. cbn [filter]. unfold call_of, is_entry_of.
  destruct (func e) as [ | | b | n | | s | g | o]; try reflexivity.
  unfold calls_to. cbn [filter is_call_to].
  destruct (Nat.eqb f g); reflexivity.
Qed.

Lemma updateSize_listeners (options : Options) (env : Env) (st : State) :
  sizeChangeListeners (state_of (updateSize options env st))
  = sizeChangeListeners st.
Proof.
  rewrite updateSize_eq. cbv zeta. cbn [state_of].
  destruct (value_eq_dec _ _); reflexivity.
Qed.

Lemma updateSize_calls (options : Options) (env : Env) (st : State) (f : nat) :
  calls_to f (trace (state_of (updateSize options env st)))
  = (calls_to f (trace st)
     + (if value_eq_dec (size st) (VStr (newSize options env)) then 0 else 1)
       * entries_of f (sizeChangeListeners st))%nat.
Proof.
  rewrite updateSize_trace, calls_to_app. f_equal.
  destruct (value_eq_dec _ _); [reflexivity|].
  change (Dispatch SizeChange
          :: dispatch_calls (VStr (newSize options env)) (sizeChangeListeners st))
    with ([Dispatch SizeChange]
          ++ dispatch_calls (VStr (newSize options env)) (sizeChangeListeners st)).
  rewrite calls_to_app, calls_to_dispatch_calls. cbn. lia.
Qed.

(** X12.  Over any sequence of [updateSize] calls, a function is called
    once per entry holding it and per change of label: the number of its
    calls grows by the number of label changes times the number of its
    entries in the size listener list. *)
Theorem listener_called_once_per_change :
  forall (options : Options) (envs : list Env) (st : State) (f : nat),
    calls_to f (trace (state_of (updateSize_seq options envs st)))
    = (calls_to f (trace st)
       + transitions (size st) (map (newSize options) envs)
         * entries_of f (sizeChangeListeners st))%nat.
Proof.
  intros options envs. induction envs as [|env envs IH]; intros st f.
  - cbn. lia.
  - cbn [updateSize_seq map transitions]. unfold bind.
    rewrite updateSize_normal, IH.
    rewrite updateSize_calls, updateSize_size, updateSize_listeners.
    destruct (value_eq_dec _ _); lia.
Qed.

(** ** Passive accessors *)

(** X13.  [getOrientation] answers "portrait" exactly when
    [window.orientation] is the number 0 and "landscape" for every other
    content: any other angle, and a host that defines no
    [window.orientation]. *)
Theorem getOrientation_two_values :
  forall env : Env,
    (getOrientation env = VStr "portrait" <-> window_orientation env = VNum 0)
    /\ (getOrientation env = VStr "landscape" <-> window_orientation env <> VNum 0)
    /\ (window_orientation env = VUndefined -> getOrientation env = VStr "landscape").
Proof.
  intros env. split; [apply getOrientation_portrait|]. split.
  - pose proof (getOrientation_portrait env) as P.
    unfold getOrientation in *.
    destruct (strict_eq (window_orientation env) (VNum 0)).
    + split; [discriminate|]. intros N. exfalso. apply N, P. reflexivity.
    + split; [|reflexivity]. intros _ E. apply P in E. discriminate.
  - unfold getOrientation. intros ->. reflexivity.
Qed.

Lemma getOrientation_two_values_witness :
  getOrientation {| Modernizr_mq := fun _ => false; window_orientation := VUndefined |}
  = VStr "landscape".
Proof.
  apply (proj2 (proj2 (getOrientation_two_values
           {| Modernizr_mq := fun _ => false; window_orientation := VUndefined |}))).
  reflexivity.
Defined.

(** X14.  [getScrollTop] and [getScrollLeft] return the offset of the
    document element unless it is 0, in which case they return the offset
    of the body: the result is 0 only when both offsets are. *)
Theorem getScroll_falls_back_to_body :
  forall a b : Z,
    getScrollTop (VNum a) (VNum b) = VNum (if a =? 0 then b else a)
    /\ getScrollLeft (VNum a) (VNum b) = VNum (if a =? 0 then b else a)
    /\ (getScrollTop (VNum a) (VNum b) = VNum 0 <-> a = 0 /\ b = 0).
Proof.
  intros a b. unfold getScrollTop, getScrollLeft, js_or. cbn [to_boolean].
  destruct (Z.eqb_spec a 0) as [-> | N]; cbn [negb].
  - split; [reflexivity|]. split; [reflexivity|]. split.
    + intros H. inversion H. split; reflexivity.
    + intros [_ E]. rewrite E. reflexivity.
  - split; [reflexivity|]. split; [reflexivity|]. split.
    + intros H. inversion H. contradiction.
    + intros [E _]. contradiction.
Qed.

(** ** Version 1.0.0 *)

Lemma V1_event_args_loop (l : list value) :
  forall (i : nat) (acc : list value), (1 <= i)%nat ->
    jq_each i l
      (fun i arg =>
         if strict_eq (VNum (Z.of_nat i)) (VNum 0)
         then ret tt
         else modify (fun a => a ++ [arg]))
      acc
    = Normal tt (acc ++ l).
Proof.
  induction l as [|x l IH]; intros i acc Hi; cbn [jq_each].
  - rewrite app_nil_r. reflexivity.
  - unfold bind. cbn [strict_eq].
    destruct (Z.eqb_spec (Z.of_nat i) 0) as [E | _]; [lia|].
    unfold modify. rewrite IH by lia. rewrite <- app_assoc. reflexivity.
Qed.

Lemma V1_event_args_skipn (arguments : list value) :
  V1.event_args arguments = skipn 1 arguments.
Proof.
  unfold V1.event_args. destruct arguments as [|a0 rest]; [reflexivity|].
  cbn [jq_each]. unfold bind. cbn. rewrite V1_event_args_loop by lia.
  reflexivity.
Qed.

Lemma V1_log_all_nil (st : V1.State) : V1.log_all [] st = st.
Proof. destruct st; unfold V1.log_all; cbn. rewrite app_nil_r. reflexivity. Qed.

Lemma V1_log_all_app (l1 l2 : list Obs) (st : V1.State) :
  V1.log_all l2 (V1.log_all l1 st) = V1.log_all (l1 ++ l2) st.
Proof. unfold V1.log_all; cbn. rewrite app_assoc. reflexivity. Qed.

Lemma V1_dispatch_loop (l : list eventObj) :
  forall (i : nat) (st : V1.State),
    jq_each i l
      (fun _ eventObj =>
         if loose_eq (VStr (typeof (func eventObj))) (VStr "function")
         then V1.apply (func eventObj) (args eventObj)
         else ret tt)
      st
    = Normal tt (V1.log_all (dispatch_calls (V1.size st) l) st).
Proof.
  induction l as [|e l IH]; intros i st;
    cbn [jq_each dispatch_calls flat_map].
  - rewrite V1_log_all_nil. reflexivity.
  - unfold bind. rewrite typeof_function.
    unfold call_of, V1.apply. destruct (func e); cbn [callable]; unfold ret;
      rewrite IH; try reflexivity.
    change (V1.log (Call f (args e) (V1.size st)) st)
      with (V1.log_all [Call f (args e) (V1.size st)] st).
    rewrite V1_log_all_app. reflexivity.
Qed.

Lemma V1_runChangeEvents_eq (k : Kind) (st : V1.State) :
  V1.runChangeEvents k st
  = Normal tt
      (V1.log_all (Dispatch k :: dispatch_calls (V1.size st) (V1.listeners k st)) st).
Proof.
  unfold V1.runChangeEvents, bind, modify.
  rewrite V1_dispatch_loop.
  change (V1.log (Dispatch k) st) with (V1.log_all [Dispatch k] st).
  rewrite V1_log_all_app. destruct k; reflexivity.
Qed.

Lemma V1_newSize_is_label (env : Env) : is_label (VStr (V1.newSize env)).
Proof.
  unfold V1.newSize, is_label; cbn [strict_eq].
  destruct (Modernizr_mq env _); cbn; auto.
  destruct (Modernizr_mq env _); cbn; auto.
Qed.

Lemma V1_updateSize_eq (env : Env) (st : V1.State) :
  V1.updateSize env st =
  Normal tt
    (let st1 := V1.set_size (VStr (V1.newSize env)) st in
     if value_eq_dec (V1.size st) (VStr (V1.newSize env))
     then st1
     else V1.log_all
            (Dispatch SizeChange
             :: dispatch_calls (VStr (V1.newSize env)) (V1.onSizeChange st))
            st1).
Proof.
  unfold V1.updateSize, bind, gets, modify. cbv beta iota zeta.
  pose proof (loose_eq_label (V1.newSize env) (V1.size st)
                (V1_newSize_is_label env)) as L.
  destruct (value_eq_dec (V1.size st) (VStr (V1.newSize env))) as [E | N].
  - apply L in E. rewrite E. reflexivity.
  - destruct (loose_eq (VStr (V1.newSize env)) (V1.size st)) eqn:E.
    + exfalso. apply N, L. reflexivity.
    + cbn [negb]. unfold V1.runSizeChangeEvents.
      rewrite V1_runChangeEvents_eq. reflexivity.
Qed.

(** X15.  In version 1.0.0, where the size is the property [device.size]
    that [getSize] tests, the lazy initialisation works: in the unset
    state [getSize] runs [updateSize] and returns the computed label; on
    a label it returns that label and changes nothing.  Starting from
    null or a label, [getSize] always returns a label. *)
Theorem V1_getSize_initialises_lazily :
  forall (env : Env) (st : V1.State),
    (V1.size st = VNull ->
     V1.getSize env st
     = Normal (VStr (V1.newSize env)) (state_of (V1.updateSize env st)))
    /\ (is_label (V1.size st) -> V1.getSize env st = Normal (V1.size st) st)
    /\ (V1.size st = VNull \/ is_label (V1.size st) ->
        exists (v : value) (st' : V1.State),
          V1.getSize env st = Normal v st' /\ is_label v).
Proof.
  intros env st.
  assert (A : V1.size st = VNull ->
              V1.getSize env st
              = Normal (VStr (V1.newSize env)) (state_of (V1.updateSize env st))).
  { intros E. unfold V1.getSize, bind, gets. rewrite E. cbn [strict_eq].
    rewrite V1_updateSize_eq. cbv zeta. cbn [state_of]. rewrite E.
    destruct (value_eq_dec _ _); [discriminate | reflexivity]. }
  assert (B : is_label (V1.size st) -> V1.getSize env st = Normal (V1.size st) st).
  { intros L. unfold V1.getSize, bind, gets.
    destruct L as [L | [L | L]]; rewrite L; cbn [strict_eq]; unfold ret;
      rewrite L; reflexivity. }
  split; [exact A|]. split; [exact B|].
  intros [E | L].
  - eexists. eexists. split; [apply A, E | apply V1_newSize_is_label].
  - eexists. eexists. split; [apply B, L | exact L].
Qed.

Lemma V1_getSize_initialises_lazily_witness :
  V1.getSize (host false true 0) V1.initial_state
  = Normal (VStr "medium")
      (state_of (V1.updateSize (host false true 0) V1.initial_state)).
Proof.
  apply (proj1 (V1_getSize_initialises_lazily (host false true 0) V1.initial_state)).
  reflexivity.
Defined.

(** X16.  In version 1.0.0 a registration takes its bound arguments
    right after the function: registering a function never calls it,
    appends an entry binding every argument after the first, and the
    dispatch that follows calls the function with exactly those. *)
Theorem V1_registration_binds_after_function :
  forall (k : Kind) (f : nat) (actuals : list value) (st : V1.State),
  exists st2 : V1.State,
    V1.addChangeEvent k (VFun f :: actuals) st
    = Normal tt (V1.push k {| func := VFun f; args := actuals |} st)
    /\ V1.runChangeEvents k (V1.push k {| func := VFun f; args := actuals |} st)
       = Normal tt st2
    /\ V1.trace st2
       = V1.trace st
         ++ Dispatch k
            :: dispatch_calls (V1.size st) (V1.listeners k st)
         ++ [Call f actuals (V1.size st)].
Proof.
  intros k f actuals st. eexists.
  split.
  { unfold V1.addChangeEvent. cbn [nth]. rewrite guard_never_fires.
    rewrite V1_event_args_skipn. reflexivity. }
  split; [apply V1_runChangeEvents_eq|].
  destruct k;
    cbn [V1.trace V1.log_all V1.push V1.listeners V1.size
         V1.onSizeChange V1.onOrientationChange];
    rewrite dispatch_calls_app; reflexivity.
Qed.

(** ** Entries that are not functions *)

(** X17.  An entry whose [func] is not a function is inert: once it is in
    a listener list, the dispatch of that list returns normally and
    observes exactly the calls it observed before, so the other listeners
    are still called, in order. *)
Theorem non_callable_entry_is_inert :
  forall (k : Kind) (v : value) (bound : list value) (st : State),
    callable v = false ->
    runChangeEvents k (push k {| func := v; args := bound |} st)
    = Normal tt
        (log_all (dispatch_obs k st) (push k {| func := v; args := bound |} st))
    /\ trace (state_of (runChangeEvents k st)) = trace st ++ dispatch_obs k st.
Proof.
  intros k v bound st H. split; [|apply runChangeEvents_trace].
  rewrite runChangeEvents_eq. f_equal. f_equal.
  unfold dispatch_obs. rewrite listeners_push, size_push, dispatch_calls_app.
  unfold dispatch_calls at 2. cbn [flat_map]. unfold call_of. cbn [func].
  destruct v; try discriminate; rewrite !app_nil_r; reflexivity.
Qed.

Lemma non_callable_entry_is_inert_witness :
  trace
    (state_of
       (runChangeEvents SizeChange
          (push SizeChange {| func := VObj 5; args := [VNum 1] |}
             (push SizeChange {| func := VFun 2; args := [] |} initial_state))))
  = [Dispatch SizeChange; Call 2 [] VNull].
Proof.
  rewrite (proj1 (non_callable_entry_is_inert SizeChange (VObj 5) [VNum 1]
                    (push SizeChange {| func := VFun 2; args := [] |} initial_state)
                    eq_refl)).
  reflexivity.
Defined.
